(** * tts-system: playback controller, settings store and monitors

    A shallow embedding of the React components of the dashboard:

    - [Home]             the page component: owns [voiceSettings],
                         [environmentSettings] and the gesture handler;
    - [VoiceCustomizer]  the sliders and pickers writing into the store;
    - [Store]            every write to [voiceSettings], in event order;
    - [NoiseDetector]    the per-frame amplitude read-out and its thresholds;
    - [EnvStore]         every write to [environmentSettings];
    - [TTSPlayer]        speak / pause / resume / stop / mute / listen;
    - [App]              the page state and the player it renders;
    - [GestureController] the camera permission and per-frame sampling loop;
    - [EmotionDetector]  the camera permission and the simulated detection;
    - [Session]          a few concrete sessions used as examples.

    Modelling conventions.  JavaScript numbers are taken as exact rationals
    ([Q]); the properties below only compare, clamp and scale by constants.
    React state is a record, a hook setter is a field update, a ref is a
    field holding an [option].  Objects that are shared and mutated (the
    utterance handed to the speech service and kept in [speechSynthRef]) live
    in a store addressed by index.  Timers and animation frames are tables of
    pending callbacks; an asynchronous callback is an event that can only
    fire while its entry is pending.  Calls on the platform speech service are
    recorded in order; a method call on an absent service throws.  A string's
    [length] counts its characters, which for ASCII text is what JavaScript
    counts. *)

From Stdlib Require Import QArith Qminmax Qround Lia Lqa.
From stdpp Require Import base option list gmap strings.

Local Open Scope string_scope.
Local Open Scope list_scope.
Local Open Scope Q_scope.

(* ================================================================== *)
(** * The page component: settings store and gesture handler          *)
(* ================================================================== *)

Module Home.

Record VoiceSettings := mkVoice {
  voice   : string;
  rate    : Q;
  pitch   : Q;
  volume  : Q;
  emotion : string;
  style   : string
}.

Record EnvironmentSettings := mkEnv {
  noiseLevel   : string;
  adaptToNoise : bool
}.

(** [Partial<typeof voiceSettings>]: every key may be left out. *)
Record PartialVoice := mkPartialVoice {
  voice_   : option string;
  rate_    : option Q;
  pitch_   : option Q;
  volume_  : option Q;
  emotion_ : option string;
  style_   : option string
}.

Record PartialEnv := mkPartialEnv {
  noiseLevel_   : option string;
  adaptToNoise_ : option bool
}.

(** [useState({...})] initial values. *)
Definition initialVoiceSettings : VoiceSettings :=
  mkVoice "en-US-Neural2-F" 1.0 1.0 1.0 "neutral" "casual".

Definition initialEnvironmentSettings : EnvironmentSettings :=
  mkEnv "normal" true.

(** [{ ...prev, ...newSettings }] *)
Definition spreadVoice (prev : VoiceSettings) (newSettings : PartialVoice) : VoiceSettings :=
  mkVoice (default (voice prev) (voice_ newSettings))
          (default (rate prev) (rate_ newSettings))
          (default (pitch prev) (pitch_ newSettings))
          (default (volume prev) (volume_ newSettings))
          (default (emotion prev) (emotion_ newSettings))
          (default (style prev) (style_ newSettings)).

Definition spreadEnv (prev : EnvironmentSettings) (newSettings : PartialEnv) : EnvironmentSettings :=
  mkEnv (default (noiseLevel prev) (noiseLevel_ newSettings))
        (default (adaptToNoise prev) (adaptToNoise_ newSettings)).

Definition handleVoiceSettingsChange (newSettings : PartialVoice) (prev : VoiceSettings) : VoiceSettings :=
  spreadVoice prev newSettings.

Definition handleEnvironmentChange (newSettings : PartialEnv) (prev : EnvironmentSettings) : EnvironmentSettings :=
  spreadEnv prev newSettings.

Definition handleEmotionDetected (emotion : string) (prev : VoiceSettings) : VoiceSettings :=
  spreadVoice prev (mkPartialVoice None None None None (Some emotion) None).

(** The [onGestureDetected] callback handed to the gesture controller. *)
Definition onGestureDetected (gesture : string) (prev : VoiceSettings) : VoiceSettings :=
  if String.eqb gesture "volume-up" then
    spreadVoice prev (mkPartialVoice None None None (Some (Qmin 2.0 (volume prev + 0.1))) None None)
  else if String.eqb gesture "volume-down" then
    spreadVoice prev (mkPartialVoice None None None (Some (Qmax 0.1 (volume prev - 0.1))) None None)
  else if String.eqb gesture "speed-up" then
    spreadVoice prev (mkPartialVoice None (Some (Qmin 2.0 (rate prev + 0.1))) None None None None)
  else if String.eqb gesture "speed-down" then
    spreadVoice prev (mkPartialVoice None (Some (Qmax 0.5 (rate prev - 0.1))) None None None None)
  else prev.

End Home.

(* ================================================================== *)
(** * The voice customizer: sliders and pickers                        *)
(* ================================================================== *)

Module VoiceCustomizer.
Import Home.

(** The props given to a [<Slider>]. *)
Record SliderProps := mkSlider { min : Q; max : Q; step : Q }.

Definition rate_slider   : SliderProps := mkSlider 0.5 2 0.1.
Definition pitch_slider  : SliderProps := mkSlider 0.5 2 0.1.
Definition volume_slider : SliderProps := mkSlider 0.1 1 0.1.

(** One interaction with a control of the panel, carrying the value the
    control reports. *)
Inductive Control :=
| VoiceSelect   (value : string)
| RateSlider    (value : Q)
| PitchSlider   (value : Q)
| VolumeSlider  (value : Q)
| EmotionRadio  (value : string)
| StyleRadio    (value : string).

(** The argument each control passes to [onChange]. *)
Definition onChange_arg (c : Control) : PartialVoice :=
  match c with
  | VoiceSelect v  => mkPartialVoice (Some v) None None None None None
  | RateSlider v   => mkPartialVoice None (Some v) None None None None
  | PitchSlider v  => mkPartialVoice None None (Some v) None None None
  | VolumeSlider v => mkPartialVoice None None None (Some v) None None
  | EmotionRadio v => mkPartialVoice None None None None (Some v) None
  | StyleRadio v   => mkPartialVoice None None None None None (Some v)
  end.

(** A slider reports a value between its [min] and [max] props. *)
Definition within (p : SliderProps) (v : Q) : Prop := min p <= v /\ v <= max p.

Definition reported_in_range (c : Control) : Prop :=
  match c with
  | RateSlider v   => within rate_slider v
  | PitchSlider v  => within pitch_slider v
  | VolumeSlider v => within volume_slider v
  | _ => True
  end.

(** [loadVoices]: the catalogue replaces [availableVoices] only when it is
    not empty. *)
Definition loadVoices (voices availableVoices : list string) : list string :=
  if Nat.ltb 0 (length voices) then voices else availableVoices.

(** The [value]s of the [<SelectItem>]s: one per available voice, or the
    single "default" item. *)
Definition selectItems (availableVoices : list string) : list string :=
  if Nat.ltb 0 (length availableVoices) then availableVoices else ["default"].

End VoiceCustomizer.

(* ================================================================== *)
(** * Writes into the voice settings store                             *)
(* ================================================================== *)

Module Store.
Import Home.

(** Everything that writes [voiceSettings]: the customizer panel, the
    emotion monitor and the gesture monitor. *)
Inductive Update :=
| Manual  (c : VoiceCustomizer.Control)
| Emotion (emotion : string)
| Gesture (gesture : string).

Definition apply (prev : VoiceSettings) (u : Update) : VoiceSettings :=
  match u with
  | Manual c  => handleVoiceSettingsChange (VoiceCustomizer.onChange_arg c) prev
  | Emotion e => handleEmotionDetected e prev
  | Gesture g => onGestureDetected g prev
  end.

(** Updates are applied in the order their events fire. *)
Definition run (us : list Update) (s : VoiceSettings) : VoiceSettings :=
  fold_left apply us s.

Definition well_formed (u : Update) : Prop :=
  match u with
  | Manual c => VoiceCustomizer.reported_in_range c
  | _ => True
  end.

(** The ranges of the data model. *)
Definition in_range (s : VoiceSettings) : Prop :=
  (0.5 <= rate s /\ rate s <= 2.0) /\
  (0.5 <= pitch s /\ pitch s <= 2.0) /\
  (0.1 <= volume s /\ volume s <= 2.0).

End Store.

(* ================================================================== *)
(** * The noise monitor                                                *)
(* ================================================================== *)

Module NoiseDetector.
Import Home.

(** [analyser.fftSize = 256]; [frequencyBinCount] is half of it. *)
Definition fftSize : nat := 256.
Definition frequencyBinCount : nat := Nat.div fftSize 2.

(** [for (i = 0; i < bufferLength; i++) sum += dataArray[i]] over a
    [Uint8Array]. *)
Definition sum (dataArray : list Byte.byte) : Z :=
  fold_left (fun acc b => (acc + Z.of_N (Byte.to_N b))%Z) dataArray 0%Z.

Definition average (dataArray : list Byte.byte) : Q :=
  inject_Z (sum dataArray) / inject_Z (Z.of_nat (length dataArray)).

(** [Math.min(100, Math.max(0, average * 1.5))] *)
Definition normalize (average : Q) : Q := Qmin 100 (Qmax 0 (average * 1.5)).

(** The [let noiseLevel = "normal"; if ... else if ...] cascade. *)
Definition classify (normalizedValue : Q) : string :=
  if Qlt_le_dec normalizedValue 20 then "low"
  else if Qlt_le_dec 60 normalizedValue then "high"
  else "normal".

(** One run of [updateAnalysis]: the value stored with [setNoiseValue]
    and the argument of [onChange], when it is called.  [settings] is the
    prop value the running loop closed over. *)
Definition updateAnalysis (settings : EnvironmentSettings) (dataArray : list Byte.byte)
  : Q * option PartialEnv :=
  let normalizedValue := normalize (average dataArray) in
  let noiseLevel := classify normalizedValue in
  (normalizedValue,
   if String.eqb noiseLevel (Home.noiseLevel settings) then None
   else Some (mkPartialEnv (Some noiseLevel) None)).

Definition toggleAdaptation (settings : EnvironmentSettings) : PartialEnv :=
  mkPartialEnv None (Some (negb (adaptToNoise settings))).

(** The label beside the meter:
    [noiseValue < 20 ? "Low" : noiseValue < 60 ? "Normal" : "High"]. *)
Definition label (noiseValue : Q) : string :=
  if Qlt_le_dec noiseValue 20 then "Low"
  else if Qlt_le_dec noiseValue 60 then "Normal"
  else "High".

(** The sentence under the meter, shown while adaptation is on:
    [noiseValue > 60 ? "increase volume" : noiseValue < 20 ? "decrease volume"
     : "use normal volume"]. *)
Definition hint (noiseValue : Q) : string :=
  if Qlt_le_dec 60 noiseValue then "increase volume"
  else if Qlt_le_dec noiseValue 20 then "decrease volume"
  else "use normal volume".

End NoiseDetector.

(* ================================================================== *)
(** * Writes into the environment settings store                       *)
(* ================================================================== *)

Module EnvStore.
Import Home.

(** What writes [environmentSettings]: a sampling tick of the noise
    detector, which compares with the settings its loop closed over, and the
    adaptation switch. *)
Inductive Update :=
| NoiseTick (closed : EnvironmentSettings) (dataArray : list Byte.byte)
| AdaptationSwitch.

Definition apply (prev : EnvironmentSettings) (u : Update) : EnvironmentSettings :=
  match u with
  | NoiseTick closed dataArray =>
      match snd (NoiseDetector.updateAnalysis closed dataArray) with
      | Some newSettings => handleEnvironmentChange newSettings prev
      | None => prev
      end
  | AdaptationSwitch =>
      handleEnvironmentChange (NoiseDetector.toggleAdaptation prev) prev
  end.

Definition run (us : list Update) (s : EnvironmentSettings) : EnvironmentSettings :=
  fold_left apply us s.

Definition isSwitch (u : Update) : bool :=
  match u with AdaptationSwitch => true | NoiseTick _ _ => false end.

End EnvStore.

(* ================================================================== *)
(** * The platform speech service, as the player sees it               *)
(* ================================================================== *)

(** A [SpeechSynthesisUtterance]: a mutable object, shared between the
  player's [speechSynthRef] and the speech service. *)
Module Utterance.
Record t := mk {
  text   : string;
  rate   : Q;
  pitch  : Q;
  volume : Q;
  voice  : option string
}.

(** [new SpeechSynthesisUtterance(text)] *)
Definition new (text : string) : t := mk text 1 1 1 None.

Definition set_rate (v : Q) (u : t) : t := mk (text u) v (pitch u) (volume u) (voice u).
Definition set_pitch (v : Q) (u : t) : t := mk (text u) (rate u) v (volume u) (voice u).
Definition set_volume (v : Q) (u : t) : t := mk (text u) (rate u) (pitch u) v (voice u).
Definition set_voice (v : string) (u : t) : t := mk (text u) (rate u) (pitch u) (volume u) (Some v).
End Utterance.

(** [window.speechSynthesis]: the voice catalogue and the requests made so
  far, oldest first.  An utterance is passed by reference. *)
Module SpeechSynthesis.
Inductive Call :=
| cancel
| pause
| resume
| getVoices
| speak (utterance : nat).

Record t := mk { voices : list string; calls : list Call }.

Definition record (c : Call) (sy : t) : t := mk (voices sy) (calls sy ++ [c]).

Global Instance Call_eq_dec : EqDecision Call.
Proof. solve_decision. Defined.
End SpeechSynthesis.

(* ================================================================== *)
(** * The playback controller                                          *)
(* ================================================================== *)

Module TTSPlayer.
Import Home.

(** The six [useState] cells. *)
Record Hooks := mkHooks {
  text                 : string;
  isPlaying            : bool;
  progress             : Q;
  isMuted              : bool;
  isListening          : bool;
  interruptionDetected : bool
}.

Record Props := mkProps {
  voiceSettings       : VoiceSettings;
  environmentSettings : EnvironmentSettings
}.

(** What the functions created by one render close over: the props and
    the state values of that render.  Refs and [window] are read when the
    function runs, not when it is created. *)
Record Render := mkRender { props : Props; state : Hooks }.

(** The two [setTimeout] callbacks of [toggleListening]. *)
Inductive Callback :=
| ListenWindow (isPlaying : bool)   (* outer callback, with the [isPlaying] it closed over *)
| FollowUp.                         (* inner callback *)

Record Timer := mkTimer { callback : Callback; delay : Z }.

Record World := mkWorld {
  hooks               : Hooks;
  speechSynthRef      : option nat;         (* index into [utterances] *)
  progressIntervalRef : option positive;    (* id returned by [setInterval] *)
  speechSynthesis     : option SpeechSynthesis.t;  (* [window.speechSynthesis] *)
  utterances          : list Utterance.t;   (* the utterance objects created so far *)
  intervals           : gmap positive Q;    (* running intervals: id to the [duration] closed over *)
  timeouts            : gmap positive Timer;(* pending timeouts *)
  nextTimer           : positive
}.

(** ** Field updates *)

Definition with_hooks (f : Hooks -> Hooks) (w : World) : World :=
  mkWorld (f (hooks w)) (speechSynthRef w) (progressIntervalRef w) (speechSynthesis w)
          (utterances w) (intervals w) (timeouts w) (nextTimer w).
Definition with_speechSynthRef (r : option nat) (w : World) : World :=
  mkWorld (hooks w) r (progressIntervalRef w) (speechSynthesis w)
          (utterances w) (intervals w) (timeouts w) (nextTimer w).
Definition with_progressIntervalRef (r : option positive) (w : World) : World :=
  mkWorld (hooks w) (speechSynthRef w) r (speechSynthesis w)
          (utterances w) (intervals w) (timeouts w) (nextTimer w).
Definition with_speechSynthesis (sy : option SpeechSynthesis.t) (w : World) : World :=
  mkWorld (hooks w) (speechSynthRef w) (progressIntervalRef w) sy
          (utterances w) (intervals w) (timeouts w) (nextTimer w).
Definition with_utterances (f : list Utterance.t -> list Utterance.t) (w : World) : World :=
  mkWorld (hooks w) (speechSynthRef w) (progressIntervalRef w) (speechSynthesis w)
          (f (utterances w)) (intervals w) (timeouts w) (nextTimer w).
Definition with_intervals (f : gmap positive Q -> gmap positive Q) (w : World) : World :=
  mkWorld (hooks w) (speechSynthRef w) (progressIntervalRef w) (speechSynthesis w)
          (utterances w) (f (intervals w)) (timeouts w) (nextTimer w).
Definition with_timeouts (f : gmap positive Timer -> gmap positive Timer) (w : World) : World :=
  mkWorld (hooks w) (speechSynthRef w) (progressIntervalRef w) (speechSynthesis w)
          (utterances w) (intervals w) (f (timeouts w)) (nextTimer w).
Definition with_nextTimer (n : positive) (w : World) : World :=
  mkWorld (hooks w) (speechSynthRef w) (progressIntervalRef w) (speechSynthesis w)
          (utterances w) (intervals w) (timeouts w) n.

(** ** Handlers run in a state monad with exceptions *)

Inductive Result (A : Type) :=
| Ok (x : A) (w : World)
| Threw (e : string) (w : World).
Arguments Ok {A} x w.
Arguments Threw {A} e w.

Definition M (A : Type) : Type := World -> Result A.

Global Instance M_ret : MRet M := fun A x w => Ok x w.
Global Instance M_bind : MBind M := fun A B f m w =>
  match m w with
  | Ok x w' => f x w'
  | Threw e w' => Threw e w'
  end.

Definition get {A} (f : World -> A) : M A := fun w => Ok (f w) w.
Definition modify (f : World -> World) : M unit := fun w => Ok tt (f w).
Definition throw {A} (e : string) : M A := fun w => Threw e w.
Definition skip : M unit := mret tt.

Definition truthy {A} (o : option A) : bool :=
  match o with Some _ => true | None => false end.

(** ** State setters *)

Definition set_text (f : string -> string) (h : Hooks) : Hooks :=
  mkHooks (f (text h)) (isPlaying h) (progress h) (isMuted h) (isListening h) (interruptionDetected h).
Definition set_isPlaying (v : bool) (h : Hooks) : Hooks :=
  mkHooks (text h) v (progress h) (isMuted h) (isListening h) (interruptionDetected h).
Definition set_progress (f : Q -> Q) (h : Hooks) : Hooks :=
  mkHooks (text h) (isPlaying h) (f (progress h)) (isMuted h) (isListening h) (interruptionDetected h).
Definition set_isMuted (v : bool) (h : Hooks) : Hooks :=
  mkHooks (text h) (isPlaying h) (progress h) v (isListening h) (interruptionDetected h).
Definition set_isListening (v : bool) (h : Hooks) : Hooks :=
  mkHooks (text h) (isPlaying h) (progress h) (isMuted h) v (interruptionDetected h).
Definition set_interruptionDetected (v : bool) (h : Hooks) : Hooks :=
  mkHooks (text h) (isPlaying h) (progress h) (isMuted h) (isListening h) v.

(** A setter takes a value or, as in [setProgress(prev => ...)], a function
    of the latest value. *)
Definition setText (f : string -> string) : M unit := modify (with_hooks (set_text f)).
Definition setIsPlaying (v : bool) : M unit := modify (with_hooks (set_isPlaying v)).
Definition setProgress (f : Q -> Q) : M unit := modify (with_hooks (set_progress f)).
Definition setIsMuted (v : bool) : M unit := modify (with_hooks (set_isMuted v)).
Definition setIsListening (v : bool) : M unit := modify (with_hooks (set_isListening v)).
Definition setInterruptionDetected (v : bool) : M unit :=
  modify (with_hooks (set_interruptionDetected v)).

(** ** Platform primitives *)

(** [window.speechSynthesis.<method>(...)]: a [TypeError] when the service
    is [undefined]. *)
Definition invoke (c : SpeechSynthesis.Call) : M unit := fun w =>
  match speechSynthesis w with
  | None => Threw "TypeError" w
  | Some sy => Ok tt (with_speechSynthesis (Some (SpeechSynthesis.record c sy)) w)
  end.

Definition getVoices : M (list string) :=
  invoke SpeechSynthesis.getVoices ;;
  sy ← get speechSynthesis;
  mret (from_option SpeechSynthesis.voices [] sy).

(** Allocation of a fresh utterance object; the result is its address. *)
Definition new_SpeechSynthesisUtterance (text : string) : M nat := fun w =>
  Ok (length (utterances w)) (with_utterances (fun us => us ++ [Utterance.new text]) w).

(** [utterance.<field> = v] and [utterance.<field>] *)
Definition assign (u : nat) (f : Utterance.t -> Utterance.t) : M unit :=
  modify (with_utterances (alter f u)).

Definition read (u : nat) : M Utterance.t := fun w =>
  match utterances w !! u with
  | Some x => Ok x w
  | None => Threw "ReferenceError" w
  end.

Definition setInterval (duration : Q) : M positive := fun w =>
  Ok (nextTimer w)
     (with_nextTimer (Pos.succ (nextTimer w))
        (with_intervals (insert (nextTimer w) duration) w)).

Definition clearInterval (id : positive) : M unit :=
  modify (with_intervals (delete id)).

Definition setTimeout (cb : Callback) (ms : Z) : M positive := fun w =>
  Ok (nextTimer w)
     (with_nextTimer (Pos.succ (nextTimer w))
        (with_timeouts (insert (nextTimer w) (mkTimer cb ms)) w)).

(** [if (progressIntervalRef.current) clearInterval(progressIntervalRef.current)] *)
Definition clearProgressInterval : M unit :=
  r ← get progressIntervalRef;
  match r with
  | Some id => clearInterval id
  | None => skip
  end.

(** The body of the interval callback:
    [prev => { const n = prev + 100 / duration; return n > 100 ? 100 : n }].
    A zero [duration] makes the quotient infinite in JavaScript, hence
    above 100; speech rates are taken to be non-zero. *)
Definition advance (duration prev : Q) : Q :=
  if Qeq_bool duration 0 then 100
  else
    let newProgress := prev + 100 / duration in
    if Qlt_le_dec 100 newProgress then 100 else newProgress.

Definition length_of (s : string) : Q := inject_Z (Z.of_nat (String.length s)).

(** ** The component's functions *)

(** [const duration = (text.length / utterance.rate) * 50] in [onstart]. *)
Definition duration (u : Utterance.t) : Q :=
  (length_of (Utterance.text u) / Utterance.rate u) * 50.

(** [remainingProgress] and [roughDuration] in [resume]. *)
Definition roughDuration (c : Render) : Q :=
  let remainingProgress := 100 - progress (state c) in
  (remainingProgress / 100) *
  ((length_of (text (state c)) / rate (voiceSettings (props c))) * 50).

(** The interval table once the interval in [progressIntervalRef] is
    cleared. *)
Definition cleared (w : World) : gmap positive Q :=
  match progressIntervalRef w with
  | Some id => delete id (intervals w)
  | None => intervals w
  end.

Definition selectVoice (voices : list string) (wanted : string) : option string :=
  match find (String.eqb wanted) voices with
  | Some v => Some v
  | None => head voices
  end.

Definition followUp : string := " I noticed you wanted to interrupt. How can I help?".

Definition speak (c : Render) : M unit :=
  let vs := voiceSettings (props c) in
  let es := environmentSettings (props c) in
  sy ← get speechSynthesis;
  if negb (truthy sy) then skip else
  invoke SpeechSynthesis.cancel ;;
  utterance ← new_SpeechSynthesisUtterance (text (state c));
  assign utterance (Utterance.set_rate (rate vs)) ;;
  assign utterance (Utterance.set_pitch (pitch vs)) ;;
  assign utterance (Utterance.set_volume (if isMuted (state c) then 0 else volume vs)) ;;
  voices ← getVoices;
  match selectVoice voices (voice vs) with
  | Some selectedVoice => assign utterance (Utterance.set_voice selectedVoice)
  | None => skip
  end ;;
  (if adaptToNoise es && String.eqb (noiseLevel es) "high"
   then u ← read utterance;
        assign utterance (Utterance.set_volume (Qmin 1 (Utterance.volume u * 1.5)))
   else skip) ;;
  modify (with_speechSynthRef (Some utterance)) ;;
  invoke (SpeechSynthesis.speak utterance).

(** The object [speak] has built when it hands it to the service, in
    closed form (see [speak_present]). *)
Definition built (c : Render) (voices : list string) : Utterance.t :=
  let vs := voiceSettings (props c) in
  let es := environmentSettings (props c) in
  let assigned := if isMuted (state c) then 0 else volume vs in
  Utterance.mk (text (state c)) (rate vs) (pitch vs)
    (if adaptToNoise es && String.eqb (noiseLevel es) "high"
     then Qmin 1 (assigned * 1.5) else assigned)
    (selectVoice voices (voice vs)).

(** [utterance.onstart], [utterance.onend], [utterance.onerror], for the
    utterance object at address [utterance].  [onstart] closes over the
    [text] that [speak] put into the utterance. *)
Definition onstart (utterance : nat) : M unit :=
  setIsPlaying true ;;
  setProgress (fun _ => 0) ;;
  clearProgressInterval ;;
  u ← read utterance;
  id ← setInterval (duration u);
  modify (with_progressIntervalRef (Some id)).

Definition onend : M unit :=
  setIsPlaying false ;;
  setProgress (fun _ => 100) ;;
  clearProgressInterval.

Definition onerror : M unit :=
  setIsPlaying false ;;
  clearProgressInterval.

Definition pause : M unit :=
  sy ← get speechSynthesis;
  if truthy sy then
    invoke SpeechSynthesis.pause ;;
    setIsPlaying false ;;
    clearProgressInterval
  else skip.

Definition resume (c : Render) : M unit :=
  sy ← get speechSynthesis;
  if truthy sy then
    invoke SpeechSynthesis.resume ;;
    setIsPlaying true ;;
    clearProgressInterval ;;
    id ← setInterval (roughDuration c);
    modify (with_progressIntervalRef (Some id))
  else skip.

Definition stop : M unit :=
  sy ← get speechSynthesis;
  if truthy sy then
    invoke SpeechSynthesis.cancel ;;
    setIsPlaying false ;;
    setProgress (fun _ => 0) ;;
    clearProgressInterval
  else skip.

Definition toggleMute (c : Render) : M unit :=
  setIsMuted (negb (isMuted (state c))) ;;
  sy ← get speechSynthesis;
  r ← get speechSynthRef;
  match r with
  | Some utterance =>
      if truthy sy then
        assign utterance
          (Utterance.set_volume
             (if negb (isMuted (state c)) then 0 else volume (voiceSettings (props c))))
      else skip
  | None => skip
  end.

Definition toggleListening (c : Render) : M unit :=
  if isListening (state c) then setIsListening false
  else
    setIsListening true ;;
    if isPlaying (state c)
    then _ ← setTimeout (ListenWindow (isPlaying (state c))) 2000; skip
    else skip.

(** What a timeout callback does when it runs. *)
Definition run_callback (cb : Callback) : M unit :=
  match cb with
  | ListenWindow isPlaying =>
      (if isPlaying
       then pause ;;
            setInterruptionDetected true ;;
            _ ← setTimeout FollowUp 1500; skip
       else skip) ;;
      setIsListening false
  | FollowUp =>
      setInterruptionDetected false ;;
      setIsListening false ;;
      setText (fun prev => (prev ++ followUp)%string)
  end.

(** The [useEffect] on [[isMuted, voiceSettings.volume]]. *)
Definition volumeEffect (c : Render) : M unit :=
  r ← get speechSynthRef;
  match r with
  | Some utterance =>
      assign utterance
        (Utterance.set_volume (if isMuted (state c) then 0 else volume (voiceSettings (props c))))
  | None => skip
  end.

(** The mount effect and its clean-up. *)
Definition mountEffect : M unit :=
  sy ← get speechSynthesis;
  if truthy sy then _ ← getVoices; skip else skip.

Definition cleanup : M unit :=
  clearProgressInterval ;;
  sy ← get speechSynthesis;
  if truthy sy then invoke SpeechSynthesis.cancel else skip.

(** ** What the view offers *)

(** [{!isPlaying ? <Speak/> : <Pause/>}] *)
Definition showsPause (h : Hooks) : bool := isPlaying h.

(** [{!isPlaying && progress > 0 && progress < 100 && <Resume/>}] *)
Definition showsResume (h : Hooks) : bool :=
  negb (isPlaying h) &&
  (if Qlt_le_dec 0 (progress h) then true else false) &&
  (if Qlt_le_dec (progress h) 100 then true else false).

(** [disabled={!isPlaying && progress === 0}] on the Stop button. *)
Definition stopDisabled (h : Hooks) : bool :=
  negb (isPlaying h) && Qeq_bool (progress h) 0.

(** The playback status the view distinguishes: the component keeps no
    status field, only [isPlaying] and [progress]. *)
Inductive Status := Idle | Speaking | Paused.

Definition status (h : Hooks) : Status :=
  if isPlaying h then Speaking
  else if showsResume h then Paused
  else Idle.

(** ** Events *)

Inductive Event :=
| ClickSpeak
| ClickPause
| ClickResume
| ClickStop
| ClickMute
| ClickMic
| ChangeText (value : string)
| Tick (id : positive)          (* an interval fires *)
| Elapsed (id : positive)       (* a timeout fires *)
| OnStart (utterance : nat)
| OnEnd (utterance : nat)
| OnError (utterance : nat).

Global Instance Event_eq_dec : EqDecision Event.
Proof. solve_decision. Defined.

Definition submitted (utterance : nat) (w : World) : bool :=
  match speechSynthesis w with
  | Some sy => bool_decide (SpeechSynthesis.speak utterance ∈ SpeechSynthesis.calls sy)
  | None => false
  end.

(** An asynchronous callback can only run while it is registered: an
    interval while it is running, a timeout while it is pending, an
    utterance event once the utterance was handed to the service.  Clicks
    are not restricted. *)
Definition can_fire (e : Event) (w : World) : bool :=
  match e with
  | Tick id => truthy (intervals w !! id)
  | Elapsed id => truthy (timeouts w !! id)
  | OnStart u | OnEnd u | OnError u => submitted u w
  | _ => true
  end.

Definition handle (c : Render) (e : Event) : M unit :=
  match e with
  | ClickSpeak => speak c
  | ClickPause => pause
  | ClickResume => resume c
  | ClickStop => stop
  | ClickMute => toggleMute c
  | ClickMic => toggleListening c
  | ChangeText v => setText (fun _ => v)
  | Tick id =>
      d ← get (fun w => intervals w !! id);
      match d with
      | Some duration => setProgress (advance duration)
      | None => skip
      end
  | Elapsed id =>
      t ← get (fun w => timeouts w !! id);
      match t with
      | Some tm => modify (with_timeouts (delete id)) ;; run_callback (callback tm)
      | None => skip
      end
  | OnStart u => onstart u
  | OnEnd _ => onend
  | OnError _ => onerror
  end.

(** After a render, React runs the volume effect when one of its
    dependencies differs from the previous render. *)
Definition deps_changed (before after : Render) : bool :=
  negb (Bool.eqb (isMuted (state before)) (isMuted (state after))) ||
  negb (Qeq_bool (volume (voiceSettings (props before))) (volume (voiceSettings (props after)))).

Definition commit (before after : Render) : M unit :=
  if deps_changed before after then volumeEffect after else skip.

(** One event, handled by the functions of the current render, followed
    by the re-render it causes. *)
Definition step (p : Props) (e : Event) : M unit := fun w =>
  let before := mkRender p (hooks w) in
  (handle before e ;;
   h ← get hooks;
   commit before (mkRender p h)) w.

(** The parent re-renders the player with new props. *)
Definition rerender (p p' : Props) : M unit := fun w =>
  commit (mkRender p (hooks w)) (mkRender p' (hooks w)) w.

Definition initialText : string :=
  "Hello! This is an advanced TTS system with real-time interaction capabilities. Try interrupting me by clicking the microphone button while I'm speaking.".

Definition initialHooks : Hooks := mkHooks initialText false 0 false false false.

(** The world before the first effect runs, on a platform with or without
    a speech service. *)
Definition unmounted (platform : option (list string)) : World :=
  mkWorld initialHooks None None
          (option_map (fun vs => SpeechSynthesis.mk vs []) platform)
          [] ∅ ∅ 1%positive.

Definition world_of {A} (r : Result A) : World :=
  match r with Ok _ w => w | Threw _ w => w end.

Definition mounted (platform : option (list string)) : World :=
  world_of (mountEffect (unmounted platform)).

(** The worlds a mounted player can be in. *)
Inductive reachable (platform : option (list string)) : World -> Prop :=
| reach_mount : reachable platform (mounted platform)
| reach_step w p e w' :
    reachable platform w ->
    can_fire e w = true ->
    step p e w = Ok tt w' ->
    reachable platform w'.

(** The utterance object [speechSynthRef.current] points to. *)
Definition live (w : World) : option Utterance.t :=
  r ← speechSynthRef w; utterances w !! r.

(** The utterance named by the latest request to the service, when that
    request is [speak]. *)
Definition spoken (w : World) : option Utterance.t :=
  sy ← speechSynthesis w;
  match last (SpeechSynthesis.calls sy) with
  | Some (SpeechSynthesis.speak u) => utterances w !! u
  | _ => None
  end.

(** What holds of every world a mounted player can be in (see
    [reachable_consistent]): the only running interval is the one in
    [progressIntervalRef]; none runs while nothing is playing; without a
    speech service nothing was ever started; every utterance handed to the
    service exists. *)
Record consistent (w : World) : Prop := mkConsistent {
  ticker_is_ref :
    forall id d, intervals w !! id = Some d -> progressIntervalRef w = Some id;
  idle_no_ticker :
    isPlaying (hooks w) = false -> intervals w = ∅;
  absent_never_started :
    speechSynthesis w = None ->
    progress (hooks w) = 0 /\ isPlaying (hooks w) = false /\
    speechSynthRef w = None /\ utterances w = [];
  submitted_exists :
    forall u, submitted u w = true -> (u < length (utterances w))%nat
}.

(** The worlds a mounted player can be in while the page keeps the voice
    settings within the ranges of the data model. *)
Inductive reachable_in_range (platform : option (list string)) : World -> Prop :=
| reach_in_range_mount : reachable_in_range platform (mounted platform)
| reach_in_range_step w p e w' :
    reachable_in_range platform w ->
    Store.in_range (voiceSettings p) ->
    can_fire e w = true ->
    step p e w = Ok tt w' ->
    reachable_in_range platform w'.

(** The progress is a percentage, every running interval has a
    non-negative duration, every utterance a positive rate. *)
Record bounded (w : World) : Prop := mkBounded {
  progress_bounds : 0 <= progress (hooks w) /\ progress (hooks w) <= 100;
  durations_nonneg : forall id d, intervals w !! id = Some d -> 0 <= d;
  rates_positive : forall u x, utterances w !! u = Some x -> 0 < Utterance.rate x
}.

End TTSPlayer.

(* ================================================================== *)
(** * The page: settings and player together                           *)
(* ================================================================== *)

Module App.
Import Home.

(** The state of [Home] together with the player it renders. *)
Record t := mk {
  voiceSettings       : VoiceSettings;
  environmentSettings : EnvironmentSettings;
  gestureEnabled      : bool;
  player              : TTSPlayer.World
}.

Inductive Event :=
| Settings (u : Store.Update)          (* a write to [voiceSettings] *)
| Environment (p : PartialEnv)         (* the noise detector's [onChange] *)
| ToggleGesture                        (* the gesture switch *)
| Player (e : TTSPlayer.Event).        (* anything happening to the player *)

Definition props (a : t) : TTSPlayer.Props :=
  TTSPlayer.mkProps (voiceSettings a) (environmentSettings a).

Definition step (e : Event) (a : t) : t :=
  match e with
  | Settings u =>
      let vs := Store.apply (voiceSettings a) u in
      let p' := TTSPlayer.mkProps vs (environmentSettings a) in
      mk vs (environmentSettings a) (gestureEnabled a)
         (TTSPlayer.world_of (TTSPlayer.rerender (props a) p' (player a)))
  | Environment p =>
      let es := handleEnvironmentChange p (environmentSettings a) in
      let p' := TTSPlayer.mkProps (voiceSettings a) es in
      mk (voiceSettings a) es (gestureEnabled a)
         (TTSPlayer.world_of (TTSPlayer.rerender (props a) p' (player a)))
  | ToggleGesture =>
      mk (voiceSettings a) (environmentSettings a) (negb (gestureEnabled a)) (player a)
  | Player e =>
      mk (voiceSettings a) (environmentSettings a) (gestureEnabled a)
         (TTSPlayer.world_of (TTSPlayer.step (props a) e (player a)))
  end.

Definition run (es : list Event) (a : t) : t := fold_left (fun a e => step e a) es a.

Definition initial (platform : option (list string)) : t :=
  mk initialVoiceSettings initialEnvironmentSettings false (TTSPlayer.mounted platform).

End App.

(* ================================================================== *)
(** * The gesture monitor                                              *)
(* ================================================================== *)

Module GestureController.

Inductive Permission := granted | denied | pending.

Global Instance Permission_eq_dec : EqDecision Permission.
Proof. solve_decision. Defined.

Record Hooks := mkHooks {
  cameraPermission  : Permission;
  detectedGesture   : option string;
  gestureConfidence : Z
}.

(** What one animation frame finds: the video's [readyState] and the three
    [Math.random()] draws of [simulateGestureDetection]. *)
Record Sample := mkSample {
  readyState : Z;
  draw_gate  : Q;
  draw_index : Q;
  draw_conf  : Q
}.

Record World := mkWorld {
  hooks             : Hooks;
  enabled           : bool;             (* the [enabled] prop *)
  videoRef          : bool;             (* is [videoRef.current] an element? *)
  canvasRef         : bool;             (* is [canvasRef.current] an element? *)
  streamRef         : option nat;
  animationFrameRef : option positive;
  frames            : gset positive;    (* requested frames, each running [detectGestures] *)
  nextFrame         : positive;
  requests          : list bool;        (* pending [getUserMedia] calls, with the [enabled] closed over *)
  streams           : gset nat;         (* streams whose tracks are running *)
  nextStream        : nat;
  clearTimers       : nat;              (* pending 1500ms display resets *)
  reported          : list string       (* arguments of [onGestureDetected], oldest first *)
}.

(** The sampling loops alive: each pending frame re-requests itself. *)
Definition activeLoops (w : World) : nat := size (frames w).

Definition with_hooks (f : Hooks -> Hooks) (w : World) : World :=
  mkWorld (f (hooks w)) (enabled w) (videoRef w) (canvasRef w) (streamRef w)
          (animationFrameRef w) (frames w) (nextFrame w) (requests w) (streams w)
          (nextStream w) (clearTimers w) (reported w).

Definition setCameraPermission (p : Permission) : World -> World :=
  with_hooks (fun h => mkHooks p (detectedGesture h) (gestureConfidence h)).
Definition setDetectedGesture (g : option string) : World -> World :=
  with_hooks (fun h => mkHooks (cameraPermission h) g (gestureConfidence h)).
Definition setGestureConfidence (c : Z) : World -> World :=
  with_hooks (fun h => mkHooks (cameraPermission h) (detectedGesture h) c).

Definition gestures : list string := ["volume-up"; "volume-down"; "speed-up"; "speed-down"].

(** [Math.round] on a non-negative number. *)
Definition round (x : Q) : Z := Qfloor (x + 0.5).

Definition simulateGestureDetection (s : Sample) (w : World) : World :=
  if Qlt_le_dec 0.05 (draw_gate s) then w
  else
    match gestures !! Z.to_nat (Qfloor (draw_index s * inject_Z (Z.of_nat (length gestures)))) with
    | None => w
    | Some randomGesture =>
        let confidence := draw_conf s * 0.3 + 0.7 in
        let w := setDetectedGesture (Some randomGesture) w in
        let w := setGestureConfidence (round (confidence * 100)) w in
        mkWorld (hooks w) (enabled w) (videoRef w) (canvasRef w) (streamRef w)
                (animationFrameRef w) (frames w) (nextFrame w) (requests w) (streams w)
                (nextStream w) (S (clearTimers w)) (reported w ++ [randomGesture])
    end.

(** [animationFrameRef.current = requestAnimationFrame(detectGestures)] *)
Definition requestAnimationFrame (w : World) : World :=
  mkWorld (hooks w) (enabled w) (videoRef w) (canvasRef w) (streamRef w)
          (Some (nextFrame w)) ({[ nextFrame w ]} ∪ frames w) (Pos.succ (nextFrame w))
          (requests w) (streams w) (nextStream w) (clearTimers w) (reported w).

Definition cancelAnimationFrame (id : positive) (w : World) : World :=
  mkWorld (hooks w) (enabled w) (videoRef w) (canvasRef w) (streamRef w)
          (animationFrameRef w) (frames w ∖ {[ id ]}) (nextFrame w)
          (requests w) (streams w) (nextStream w) (clearTimers w) (reported w).

Definition clearAnimationFrameRef (w : World) : World :=
  mkWorld (hooks w) (enabled w) (videoRef w) (canvasRef w) (streamRef w)
          None (frames w) (nextFrame w)
          (requests w) (streams w) (nextStream w) (clearTimers w) (reported w).

Definition detectGestures (s : Sample) (w : World) : World :=
  let w := if videoRef w && canvasRef w && Z.eqb (readyState s) 4
           then simulateGestureDetection s w else w in
  requestAnimationFrame w.

(** [enabled] is the prop of the render that created the function. *)
Definition startGestureDetection (enabled : bool) (s : Sample) (w : World) : World :=
  if negb enabled || negb (videoRef w) || negb (canvasRef w) then w
  else detectGestures s w.

Definition stopGestureDetection (w : World) : World :=
  let w := match animationFrameRef w with
           | Some id => clearAnimationFrameRef (cancelAnimationFrame id w)
           | None => w
           end in
  setGestureConfidence 0 (setDetectedGesture None w).

(** [startCamera] up to its [await]: the request is pending. *)
Definition startCamera (enabled : bool) (w : World) : World :=
  mkWorld (hooks w) (GestureController.enabled w) (videoRef w) (canvasRef w) (streamRef w)
          (animationFrameRef w) (frames w) (nextFrame w)
          (requests w ++ [enabled]) (streams w) (nextStream w) (clearTimers w) (reported w).

(** [startCamera] after its [await], when the camera is granted. *)
Definition startCamera_resolved (enabled : bool) (s : Sample) (w : World) : World :=
  let stream := nextStream w in
  let w := mkWorld (hooks w) (GestureController.enabled w) (videoRef w) (canvasRef w)
                   (Some stream) (animationFrameRef w) (frames w) (nextFrame w)
                   (requests w) ({[ stream ]} ∪ streams w) (S stream)
                   (clearTimers w) (reported w) in
  if videoRef w then
    let w := setCameraPermission granted w in
    if enabled then startGestureDetection enabled s w else w
  else w.

(** ... and when it is refused. *)
Definition startCamera_rejected (w : World) : World := setCameraPermission denied w.

Definition stopCamera (w : World) : World :=
  let w := match streamRef w with
           | Some stream =>
               mkWorld (hooks w) (enabled w) (videoRef w) (canvasRef w) None
                       (animationFrameRef w) (frames w) (nextFrame w)
                       (requests w) (streams w ∖ {[ stream ]}) (nextStream w)
                       (clearTimers w) (reported w)
           | None => w
           end in
  match animationFrameRef w with
  | Some id => clearAnimationFrameRef (cancelAnimationFrame id w)
  | None => w
  end.

(** The [useEffect] on [[enabled, cameraPermission]]. *)
Definition toggleEffect (s : Sample) (w : World) : World :=
  if enabled w then
    match cameraPermission (hooks w) with
    | pending => startCamera (enabled w) w
    | granted => startGestureDetection (enabled w) s w
    | denied => w
    end
  else stopGestureDetection w.

(** The [<video>] and [<canvas>] elements are rendered only inside
    [{cameraPermission === "granted" && (...)}]; React sets the refs when it
    commits the render. *)
Definition attachRefs (w : World) : World :=
  let mounted := bool_decide (cameraPermission (hooks w) = granted) in
  mkWorld (hooks w) (enabled w) mounted mounted (streamRef w)
          (animationFrameRef w) (frames w) (nextFrame w)
          (requests w) (streams w) (nextStream w) (clearTimers w) (reported w).

Definition commit (s : Sample) (before : World) (w : World) : World :=
  let w := attachRefs w in
  if bool_decide (enabled before = enabled w) &&
     bool_decide (cameraPermission (hooks before) = cameraPermission (hooks w))
  then w else toggleEffect s w.

Definition flipEnabled (w : World) : World :=
  mkWorld (hooks w) (negb (enabled w)) (videoRef w) (canvasRef w) (streamRef w)
          (animationFrameRef w) (frames w) (nextFrame w)
          (requests w) (streams w) (nextStream w) (clearTimers w) (reported w).

Definition dropRequest (k : nat) (w : World) : World :=
  mkWorld (hooks w) (enabled w) (videoRef w) (canvasRef w) (streamRef w)
          (animationFrameRef w) (frames w) (nextFrame w)
          (delete k (requests w)) (streams w) (nextStream w) (clearTimers w) (reported w).

Definition expire (w : World) : World :=
  let w := setGestureConfidence 0 (setDetectedGesture None w) in
  mkWorld (hooks w) (enabled w) (videoRef w) (canvasRef w) (streamRef w)
          (animationFrameRef w) (frames w) (nextFrame w)
          (requests w) (streams w) (nextStream w) (Nat.pred (clearTimers w)) (reported w).

Inductive Event :=
| Toggle                           (* the switch: the parent flips [enabled] *)
| ClickSetup                       (* the Setup Camera button *)
| Answer (k : nat) (ok : bool)     (* the k-th pending camera request settles *)
| Frame (id : positive)            (* a requested animation frame runs *)
| Expire.                          (* a display reset timer runs *)

Definition can_fire (e : Event) (w : World) : bool :=
  match e with
  | Answer k _ => bool_decide (is_Some (requests w !! k))
  | Frame id => bool_decide (id ∈ frames w)
  | Expire => negb (Nat.eqb (clearTimers w) 0)
  | _ => true
  end.

Definition handle (s : Sample) (e : Event) (w : World) : World :=
  match e with
  | Toggle => flipEnabled w
  | ClickSetup => startCamera (enabled w) w
  | Answer k ok =>
      match requests w !! k with
      | Some closed_enabled =>
          if ok then startCamera_resolved closed_enabled s (dropRequest k w)
          else startCamera_rejected (dropRequest k w)
      | None => w
      end
  | Frame id => detectGestures s (cancelAnimationFrame id w)
  | Expire => expire w
  end.

Definition step (s : Sample) (e : Event) (w : World) : World :=
  commit s w (handle s e w).

Definition run (s : Sample) (es : list Event) (w : World) : World :=
  fold_left (fun w e => step s e w) es w.

Definition initialHooks : Hooks := mkHooks pending None 0.

(** The first render with [enabled = false], then the first run of the
    effect. *)
Definition mounted (s : Sample) : World :=
  toggleEffect s
    (mkWorld initialHooks false false false None None ∅ 1%positive [] ∅ 0%nat 0%nat []).

Inductive reachable (s0 : Sample) : World -> Prop :=
| reach_mount : reachable s0 (mounted s0)
| reach_step w s e :
    reachable s0 w -> can_fire e w = true -> reachable s0 (step s e w).

End GestureController.

(* ================================================================== *)
(** * The emotion monitor                                              *)
(* ================================================================== *)

Module EmotionDetector.

Inductive Permission := granted | denied | pending.

Global Instance Permission_eq_dec : EqDecision Permission.
Proof. solve_decision. Defined.

Record Hooks := mkHooks {
  isDetecting       : bool;
  currentEmotion    : string;
  emotionConfidence : Z;
  cameraPermission  : Permission
}.

(** [Object.keys(emotions)], in insertion order. *)
Definition keys : list string := ["happy"; "sad"; "angry"; "surprised"; "neutral"].

(** What one frame finds: the video's [readyState] and the [Math.random()]
    draws of [simulateEmotionDetection], the last one per remaining key. *)
Record Sample := mkSample {
  readyState : Z;
  draw_index : Q;
  draw_conf  : Q;
  draw_rest  : string -> Q
}.

(** The outcome of one simulated detection: the [emotions] object after
    the call, the dominant emotion and its confidence. *)
Record Detection := mkDetection {
  emotions        : list (string * Q);
  dominantEmotion : string;
  confidence      : Q
}.

Definition detect (s : Sample) : option Detection :=
  match keys !! Z.to_nat (Qfloor (draw_index s * inject_Z (Z.of_nat (length keys)))) with
  | None => None
  | Some dominantEmotion =>
      let confidence := draw_conf s * 0.5 + 0.5 in
      Some (mkDetection
              (map (fun key =>
                      (key, if String.eqb key dominantEmotion then confidence
                            else draw_rest s key * (1 - confidence)))
                   keys)
              dominantEmotion confidence)
  end.

Record World := mkWorld {
  hooks      : Hooks;
  videoRef   : bool;            (* is [videoRef.current] an element? *)
  canvasRef  : bool;
  streamRef  : option nat;
  streams    : gset nat;        (* streams whose tracks are running *)
  nextStream : nat;
  requests   : list bool;       (* pending [getUserMedia] calls, with the [isDetecting] closed over *)
  frames     : list bool;       (* requested frames, with the [isDetecting] closed over *)
  reported   : list string      (* arguments of [onEmotionDetected], oldest first *)
}.

Definition with_hooks (f : Hooks -> Hooks) (w : World) : World :=
  mkWorld (f (hooks w)) (videoRef w) (canvasRef w) (streamRef w) (streams w)
          (nextStream w) (requests w) (frames w) (reported w).

Definition setIsDetecting (v : bool) : World -> World :=
  with_hooks (fun h => mkHooks v (currentEmotion h) (emotionConfidence h) (cameraPermission h)).
Definition setCurrentEmotion (v : string) : World -> World :=
  with_hooks (fun h => mkHooks (isDetecting h) v (emotionConfidence h) (cameraPermission h)).
Definition setEmotionConfidence (v : Z) : World -> World :=
  with_hooks (fun h => mkHooks (isDetecting h) (currentEmotion h) v (cameraPermission h)).
Definition setCameraPermission (v : Permission) : World -> World :=
  with_hooks (fun h => mkHooks (isDetecting h) (currentEmotion h) (emotionConfidence h) v).

Definition simulateEmotionDetection (s : Sample) (w : World) : World :=
  match detect s with
  | None => w
  | Some d =>
      let w := setCurrentEmotion (dominantEmotion d) w in
      let w := setEmotionConfidence (GestureController.round (confidence d * 100)) w in
      mkWorld (hooks w) (videoRef w) (canvasRef w) (streamRef w) (streams w)
              (nextStream w) (requests w) (frames w) (reported w ++ [dominantEmotion d])
  end.

(** [detectEmotions], as created by a render whose [isDetecting] was
    [closed]. *)
Definition detectEmotions (closed : bool) (s : Sample) (w : World) : World :=
  if negb closed then w
  else
    let w := if videoRef w && canvasRef w && Z.eqb (readyState s) 4
             then simulateEmotionDetection s w else w in
    mkWorld (hooks w) (videoRef w) (canvasRef w) (streamRef w) (streams w)
            (nextStream w) (requests w) (frames w ++ [closed]) (reported w).

(** [startDetection] up to its [await]. *)
Definition startDetection (w : World) : World :=
  mkWorld (hooks w) (videoRef w) (canvasRef w) (streamRef w) (streams w)
          (nextStream w) (requests w ++ [isDetecting (hooks w)]) (frames w) (reported w).

(** [startDetection] after its [await], when the camera is granted. *)
Definition startDetection_resolved (closed : bool) (s : Sample) (w : World) : World :=
  let stream := nextStream w in
  let w := mkWorld (hooks w) (videoRef w) (canvasRef w) (Some stream)
                   ({[ stream ]} ∪ streams w) (S stream)
                   (requests w) (frames w) (reported w) in
  if videoRef w then
    detectEmotions closed s (setIsDetecting true (setCameraPermission granted w))
  else w.

Definition startDetection_rejected (w : World) : World := setCameraPermission denied w.

Definition stopDetection (w : World) : World :=
  let w := match streamRef w with
           | Some stream =>
               mkWorld (hooks w) (videoRef w) (canvasRef w) None
                       (streams w ∖ {[ stream ]}) (nextStream w)
                       (requests w) (frames w) (reported w)
           | None => w
           end in
  setIsDetecting false w.

(** The [<video>] and [<canvas>] elements are rendered only in the
    [cameraPermission === "granted"] branch. *)
Definition attachRefs (w : World) : World :=
  let mounted := bool_decide (cameraPermission (hooks w) = granted) in
  mkWorld (hooks w) mounted mounted (streamRef w) (streams w)
          (nextStream w) (requests w) (frames w) (reported w).

Inductive Event :=
| ClickEnable                    (* the Enable Camera button *)
| ClickStop                      (* the round button beside the detected emotion *)
| Answer (k : nat) (ok : bool)   (* the k-th pending camera request settles *)
| Frame (k : nat).               (* the k-th requested frame runs *)

Definition can_fire (e : Event) (w : World) : bool :=
  match e with
  | Answer k _ => bool_decide (is_Some (requests w !! k))
  | Frame k => bool_decide (is_Some (frames w !! k))
  | _ => true
  end.

Definition handle (s : Sample) (e : Event) (w : World) : World :=
  match e with
  | ClickEnable => startDetection w
  | ClickStop => stopDetection w
  | Answer k ok =>
      match requests w !! k with
      | Some closed =>
          let w := mkWorld (hooks w) (videoRef w) (canvasRef w) (streamRef w) (streams w)
                           (nextStream w) (delete k (requests w)) (frames w) (reported w) in
          if ok then startDetection_resolved closed s w else startDetection_rejected w
      | None => w
      end
  | Frame k =>
      match frames w !! k with
      | Some closed =>
          detectEmotions closed s
            (mkWorld (hooks w) (videoRef w) (canvasRef w) (streamRef w) (streams w)
                     (nextStream w) (requests w) (delete k (frames w)) (reported w))
      | None => w
      end
  end.

Definition step (s : Sample) (e : Event) (w : World) : World :=
  attachRefs (handle s e w).

Definition initialHooks : Hooks := mkHooks false "neutral" 0 pending.

Definition mounted : World :=
  mkWorld initialHooks false false None ∅ 0%nat [] [] [].

Inductive reachable : World -> Prop :=
| reach_mount : reachable mounted
| reach_step w s e :
    reachable w -> can_fire e w = true -> reachable (step s e w).

End EmotionDetector.

(* ================================================================== *)
(** * Sample sessions                                                  *)
(* ================================================================== *)

Module Session.
Import Home TTSPlayer.

(** The props [Home] passes on its first render. *)
Definition firstProps : Props := mkProps initialVoiceSettings initialEnvironmentSettings.

(** A browser with a speech service offering one voice. *)
Definition browser : option (list string) := Some ["en-US-Neural2-F"].

Definition after (p : Props) (es : list Event) (w : World) : World :=
  fold_left (fun w e => world_of (step p e w)) es w.

(** Speak was clicked and the service reported the start. *)
Definition speaking : World := after firstProps [ClickSpeak; OnStart 0%nat] (mounted browser).

(** ... then the microphone button was clicked. *)
Definition listening : World := after firstProps [ClickMic] speaking.

(** The mute button was clicked before anything was spoken. *)
Definition muted : World := after firstProps [ClickMute] (mounted browser).

(** A quiet voice in a loud room. *)
Definition loudRoom : Props :=
  mkProps (mkVoice "en-US-Neural2-F" 1 1 0.5 "neutral" "casual") (mkEnv "high" true).

(** Adaptation switched off. *)
Definition noAdaptation : Props :=
  mkProps initialVoiceSettings (mkEnv "normal" false).

(** The page in the loud room, after Speak, Mute and Mute again. *)
Definition loudPage : App.t :=
  App.mk (voiceSettings loudRoom) (environmentSettings loudRoom) false (mounted browser).

Definition loudSpoken : App.t := App.run [App.Player ClickSpeak] loudPage.
Definition loudMuted : App.t := App.run [App.Player ClickMute] loudSpoken.
Definition loudUnmuted : App.t := App.run [App.Player ClickMute] loudMuted.

End Session.

(* ================================================================== *)
(** * Facts: the settings store                                        *)
(* ================================================================== *)

Section StoreFacts.
Import Home Store.

Lemma Qmin_between (lo hi x : Q) : lo <= hi -> lo <= x -> lo <= Qmin hi x /\ Qmin hi x <= hi.
Proof.
  intros Hlh Hx. split.
  - apply Q.min_glb; assumption.
  - apply Q.le_min_l.
Qed.

Lemma Qmax_between (lo hi x : Q) : lo <= hi -> x <= hi -> lo <= Qmax lo x /\ Qmax lo x <= hi.
Proof.
  intros Hlh Hx. split.
  - apply Q.le_max_l.
  - apply Q.max_lub; assumption.
Qed.

Lemma onGestureDetected_in_range g s : in_range s -> in_range (onGestureDetected g s).
Proof.
  intros (Hr & Hp & Hv). unfold onGestureDetected.
  repeat case_match; unfold in_range; cbn; try tauto.
  - split; [exact Hr | split; [exact Hp |]]. apply Qmin_between; lra.
  - split; [exact Hr | split; [exact Hp |]]. apply Qmax_between; lra.
  - split; [| split; [exact Hp | exact Hv]]. apply Qmin_between; lra.
  - split; [| split; [exact Hp | exact Hv]]. apply Qmax_between; lra.
Qed.

Lemma apply_in_range u s : well_formed u -> in_range s -> in_range (apply s u).
Proof.
  destruct u as [c|e|g]; cbn.
  - intros Hc (Hr & Hp & Hv). unfold in_range.
    destruct c; cbn in *; unfold VoiceCustomizer.within in *; cbn in *;
      (split; [| split]); try assumption; lra.
  - intros _ Hs. exact Hs.
  - intros _. apply onGestureDetected_in_range.
Qed.

(** C3.  Starting from the default voice settings, after any sequence of
    slider or picker updates (each slider reporting a value within its own
    minimum and maximum), emotion updates and gesture updates, the rate and
    the pitch are within [0.5, 2.0] and the volume is within [0.1, 2.0]. *)
Theorem clamping_invariant (us : list Update) :
  Forall well_formed us -> in_range (run us initialVoiceSettings).
Proof.
  unfold run.
  assert (H0 : in_range initialVoiceSettings) by (unfold in_range; cbn; lra).
  revert H0. generalize initialVoiceSettings as s.
  induction us as [|u us IH]; intros s Hs Hall; cbn.
  - exact Hs.
  - inversion Hall as [|? ? Hu Hus]; subst.
    apply IH; [apply apply_in_range; assumption | assumption].
Qed.

Lemma clamping_invariant_witness :
  in_range (run [Manual (VoiceCustomizer.VolumeSlider 0.3);
                 Gesture "volume-down"; Gesture "volume-down"; Gesture "volume-down";
                 Manual (VoiceCustomizer.RateSlider 2); Gesture "speed-up"]
                initialVoiceSettings).
Proof.
  apply clamping_invariant.
  repeat constructor; cbn; unfold Qle; cbn; lia.
Defined.

End StoreFacts.

(* ================================================================== *)
(** * Facts: the noise monitor                                         *)
(* ================================================================== *)

Section NoiseFacts.
Import Home NoiseDetector.


Lemma classify_low (v : Q) : classify v = "low" <-> v < 20.
Proof.
  unfold classify. destruct (Qlt_le_dec v 20) as [H|H].
  - split; [intros _; exact H | reflexivity].
  - destruct (Qlt_le_dec 60 v); (split; [discriminate | lra]).
Qed.

Lemma classify_high (v : Q) : classify v = "high" <-> 60 < v.
Proof.
  unfold classify. destruct (Qlt_le_dec v 20) as [H|H].
  - split; [discriminate | lra].
  - destruct (Qlt_le_dec 60 v) as [H'|H'].
    + split; [intros _; exact H' | reflexivity].
    + split; [discriminate | lra].
Qed.



(** One sampling tick stores the normalised mean of the frequency bins and
    reports its class, unless the store already holds that class. *)
Lemma updateAnalysis_reports (settings : EnvironmentSettings) (dataArray : list Byte.byte) :
  let v := normalize (average dataArray) in
  fst (updateAnalysis settings dataArray) = v /\
  snd (updateAnalysis settings dataArray) =
    (if String.eqb (classify v) (noiseLevel settings) then None
     else Some (mkPartialEnv (Some (classify v)) None)).
Proof. split; reflexivity. Qed.

End NoiseFacts.

(* ================================================================== *)
(** * Facts: the playback controller                                   *)
(* ================================================================== *)

Section PlayerFacts.
Import Home TTSPlayer.

(** Symbolic execution of a handler on a world given field by field. *)
Ltac mrun :=
  unfold step, rerender, handle, speak, pause, resume, stop, toggleMute, toggleListening,
         run_callback, onstart, onend, onerror, mountEffect, cleanup,
         volumeEffect, commit, clearProgressInterval, getVoices,
         setText, setIsPlaying, setProgress, setIsMuted, setIsListening,
         setInterruptionDetected,
         new_SpeechSynthesisUtterance, assign, read, setInterval, clearInterval,
         setTimeout, invoke, get, modify, skip, throw;
  unfold mbind, M_bind, mret, M_ret;
  unfold with_hooks, with_speechSynthRef, with_progressIntervalRef, with_speechSynthesis,
         with_utterances, with_intervals, with_timeouts, with_nextTimer;
  cbn -[alter insert delete lookup Qmin Qmult Qdiv Qplus Qminus length_of String.eqb
        selectVoice app advance deps_changed].

Lemma alter_snoc {A} (f : A -> A) (l : list A) (x : A) :
  alter f (length l) (l ++ [x]) = l ++ [f x].
Proof.
  replace (length l) with (length l + 0)%nat by lia.
  rewrite alter_app_r. reflexivity.
Qed.

Lemma lookup_snoc {A} (l : list A) (x : A) : (l ++ [x]) !! length l = Some x.
Proof. rewrite lookup_app_r by lia. rewrite Nat.sub_diag. reflexivity. Qed.

(** ** [speak] *)

Lemma speak_absent (c : Render) (w : World) :
  speechSynthesis w = None -> speak c w = Ok tt w.
Proof.
  intros H. destruct w as [h r pr sy us iv to nt]; cbn in H; subst sy.
  reflexivity.
Qed.

Lemma speak_present (c : Render) (w : World) (sy : SpeechSynthesis.t) :
  speechSynthesis w = Some sy ->
  speak c w =
  Ok tt (mkWorld (hooks w) (Some (length (utterances w))) (progressIntervalRef w)
           (Some (SpeechSynthesis.record (SpeechSynthesis.speak (length (utterances w)))
                    (SpeechSynthesis.record SpeechSynthesis.getVoices
                       (SpeechSynthesis.record SpeechSynthesis.cancel sy))))
           (utterances w ++ [built c (SpeechSynthesis.voices sy)])
           (intervals w) (timeouts w) (nextTimer w)).
Proof.
  intros H. destruct w as [h r pr sy' us iv to nt]; cbn in H; subst sy'.
  mrun. rewrite !alter_snoc. unfold built.
  destruct (selectVoice (SpeechSynthesis.voices sy) (voice (voiceSettings (props c))))
    as [v|] eqn:Hv; mrun;
    destruct (adaptToNoise (environmentSettings (props c)) &&
              String.eqb (noiseLevel (environmentSettings (props c))) "high") eqn:Ha;
    mrun; rewrite ?alter_snoc, ?lookup_snoc; mrun; rewrite ?alter_snoc; reflexivity.
Qed.

Lemma deps_unchanged (r : Render) : deps_changed r r = false.
Proof.
  unfold deps_changed. rewrite Bool.eqb_reflx, Qeq_bool_refl. reflexivity.
Qed.

(** C9.  When the platform has no speech service, [speak] returns normally
    and the world it returns is the world it was given: state cells, refs,
    timers and utterances are untouched, and so is the world after the whole
    click (handler and re-render). *)
Theorem speak_unavailable_is_noop (c : Render) (p : Props) (w : World) :
  speechSynthesis w = None ->
  speak c w = Ok tt w /\ step p ClickSpeak w = Ok tt w.
Proof.
  intros H. split; [apply speak_absent; exact H |].
  unfold step, handle. unfold mbind, M_bind. rewrite speak_absent by exact H.
  unfold get, commit. rewrite deps_unchanged. reflexivity.
Qed.

Lemma speak_unavailable_witness :
  speak (mkRender (mkProps initialVoiceSettings initialEnvironmentSettings) initialHooks)
        (mounted None) = Ok tt (mounted None).
Proof.
  apply (speak_unavailable_is_noop
           (mkRender (mkProps initialVoiceSettings initialEnvironmentSettings) initialHooks)
           (mkProps initialVoiceSettings initialEnvironmentSettings)
           (mounted None)).
  reflexivity.
Defined.

Lemma spoken_after_speak (c : Render) (w w' : World) (sy : SpeechSynthesis.t) :
  speechSynthesis w = Some sy ->
  speak c w = Ok tt w' ->
  spoken w' = Some (built c (SpeechSynthesis.voices sy)) /\
  live w' = Some (built c (SpeechSynthesis.voices sy)).
Proof.
  intros H Hs. rewrite (speak_present c w sy H) in Hs.
  injection Hs as <-. unfold spoken, live; cbn.
  rewrite last_snoc, lookup_snoc. split; reflexivity.
Qed.

(** C1, as the code has it.  With a speech service present, the utterance
    [speak] hands over carries: while not muted, [Math.min(1, volume * 1.5)]
    when [adaptToNoise] is on and the noise level is "high", and exactly
    the stored volume when [adaptToNoise] is off, whatever the noise level;
    while muted, zero in every case. *)
Theorem speak_volume (c : Render) (w : World) (sy : SpeechSynthesis.t) :
  speechSynthesis w = Some sy ->
  exists w' u,
    speak c w = Ok tt w' /\ spoken w' = Some u /\ live w' = Some u /\
    (isMuted (state c) = false ->
     adaptToNoise (environmentSettings (props c)) = true ->
     noiseLevel (environmentSettings (props c)) = "high" ->
     Utterance.volume u = Qmin 1 (volume (voiceSettings (props c)) * 1.5)) /\
    (isMuted (state c) = false ->
     adaptToNoise (environmentSettings (props c)) = false ->
     Utterance.volume u = volume (voiceSettings (props c))) /\
    (isMuted (state c) = true -> Utterance.volume u == 0).
Proof.
  intros H. eexists _, (built c (SpeechSynthesis.voices sy)).
  split; [apply speak_present; exact H |].
  unfold spoken, live; cbn. rewrite last_snoc, lookup_snoc.
  split; [reflexivity | split; [reflexivity |]].
  unfold built; cbn. repeat split.
  - intros -> -> ->. reflexivity.
  - intros -> ->. reflexivity.
  - intros ->.
    destruct (adaptToNoise (environmentSettings (props c)) &&
              String.eqb (noiseLevel (environmentSettings (props c))) "high").
    + rewrite Q.min_r; lra.
    + reflexivity.
Qed.

Lemma speak_volume_witness :
  exists w' u,
    speak (mkRender Session.loudRoom initialHooks) (mounted Session.browser) = Ok tt w' /\
    spoken w' = Some u /\
    Utterance.volume u = Qmin 1 (0.5 * 1.5).
Proof.
  destruct (speak_volume (mkRender Session.loudRoom initialHooks) (mounted Session.browser)
              (SpeechSynthesis.mk ["en-US-Neural2-F"] [SpeechSynthesis.getVoices]) eq_refl)
    as (w' & u & H1 & H2 & _ & Hboost & _ & _).
  exists w', u. split; [exact H1 |]. split; [exact H2 |].
  apply Hboost; reflexivity.
Defined.

(** Against C1 as stated: with the mute flag set and [adaptToNoise] off,
    the volume handed to the service is 0, not the stored volume 1; with
    the mute flag set, [adaptToNoise] on and noise "high", it is 0 as well,
    not [min(1, 1 * 1.5)]. *)
Lemma speak_while_muted_counterexample :
  (exists w' u,
     speak (mkRender Session.noAdaptation (hooks Session.muted)) Session.muted = Ok tt w' /\
     spoken w' = Some u /\
     adaptToNoise (environmentSettings Session.noAdaptation) = false /\
     ~ Utterance.volume u == volume (voiceSettings Session.noAdaptation)) /\
  (exists w' u,
     speak (mkRender (mkProps initialVoiceSettings (mkEnv "high" true)) (hooks Session.muted))
           Session.muted = Ok tt w' /\
     spoken w' = Some u /\
     ~ Utterance.volume u == Qmin 1 (volume initialVoiceSettings * 1.5)).
Proof.
  split.
  - eexists _, _. split; [vm_compute; reflexivity |].
    split; [vm_compute; reflexivity |]. split; [reflexivity |].
    cbn. intros H. vm_compute in H. discriminate H.
  - eexists _, _. split; [vm_compute; reflexivity |].
    split; [vm_compute; reflexivity |].
    cbn. intros H. vm_compute in H. discriminate H.
Qed.

(** ** Closed forms of the other handlers *)

Lemma pause_eq (w : World) :
  pause w =
  Ok tt match speechSynthesis w with
        | Some sy =>
            mkWorld (set_isPlaying false (hooks w)) (speechSynthRef w) (progressIntervalRef w)
                    (Some (SpeechSynthesis.record SpeechSynthesis.pause sy))
                    (utterances w) (cleared w) (timeouts w) (nextTimer w)
        | None => w
        end.
Proof.
  destruct w as [h r pr [sy|] us iv to nt]; [| reflexivity].
  destruct pr; reflexivity.
Qed.

Lemma stop_eq (w : World) :
  stop w =
  Ok tt match speechSynthesis w with
        | Some sy =>
            mkWorld (set_progress (fun _ => 0) (set_isPlaying false (hooks w)))
                    (speechSynthRef w) (progressIntervalRef w)
                    (Some (SpeechSynthesis.record SpeechSynthesis.cancel sy))
                    (utterances w) (cleared w) (timeouts w) (nextTimer w)
        | None => w
        end.
Proof.
  destruct w as [h r pr [sy|] us iv to nt]; [| reflexivity].
  destruct pr; reflexivity.
Qed.

Lemma resume_eq (c : Render) (w : World) :
  resume c w =
  Ok tt match speechSynthesis w with
        | Some sy =>
            mkWorld (set_isPlaying true (hooks w)) (speechSynthRef w) (Some (nextTimer w))
                    (Some (SpeechSynthesis.record SpeechSynthesis.resume sy))
                    (utterances w) (<[nextTimer w := roughDuration c]> (cleared w))
                    (timeouts w) (Pos.succ (nextTimer w))
        | None => w
        end.
Proof.
  destruct w as [h r pr [sy|] us iv to nt]; [| reflexivity].
  destruct pr; reflexivity.
Qed.

Lemma onstart_eq (u : nat) (x : Utterance.t) (w : World) :
  utterances w !! u = Some x ->
  onstart u w =
  Ok tt (mkWorld (set_progress (fun _ => 0) (set_isPlaying true (hooks w)))
                 (speechSynthRef w) (Some (nextTimer w)) (speechSynthesis w)
                 (utterances w) (<[nextTimer w := duration x]> (cleared w))
                 (timeouts w) (Pos.succ (nextTimer w))).
Proof.
  intros H. destruct w as [h r pr sy us iv to nt]; cbn in H.
  destruct pr; mrun; rewrite H; reflexivity.
Qed.

Lemma onend_eq (w : World) :
  onend w =
  Ok tt (mkWorld (set_progress (fun _ => 100) (set_isPlaying false (hooks w)))
                 (speechSynthRef w) (progressIntervalRef w) (speechSynthesis w)
                 (utterances w) (cleared w) (timeouts w) (nextTimer w)).
Proof. destruct w as [h r pr sy us iv to nt]. destruct pr; reflexivity. Qed.

Lemma onerror_eq (w : World) :
  onerror w =
  Ok tt (mkWorld (set_isPlaying false (hooks w))
                 (speechSynthRef w) (progressIntervalRef w) (speechSynthesis w)
                 (utterances w) (cleared w) (timeouts w) (nextTimer w)).
Proof. destruct w as [h r pr sy us iv to nt]. destruct pr; reflexivity. Qed.

Lemma toggleMute_eq (c : Render) (w : World) :
  toggleMute c w =
  Ok tt (mkWorld (set_isMuted (negb (isMuted (state c))) (hooks w))
                 (speechSynthRef w) (progressIntervalRef w) (speechSynthesis w)
                 match speechSynthRef w, speechSynthesis w with
                 | Some u, Some _ =>
                     alter (Utterance.set_volume
                              (if negb (isMuted (state c)) then 0
                               else volume (voiceSettings (props c))))
                           u (utterances w)
                 | _, _ => utterances w
                 end
                 (intervals w) (timeouts w) (nextTimer w)).
Proof. destruct w as [h [u|] pr [sy|] us iv to nt]; reflexivity. Qed.

Lemma volumeEffect_eq (c : Render) (w : World) :
  volumeEffect c w =
  Ok tt (mkWorld (hooks w) (speechSynthRef w) (progressIntervalRef w) (speechSynthesis w)
                 match speechSynthRef w with
                 | Some u =>
                     alter (Utterance.set_volume
                              (if isMuted (state c) then 0
                               else volume (voiceSettings (props c))))
                           u (utterances w)
                 | None => utterances w
                 end
                 (intervals w) (timeouts w) (nextTimer w)).
Proof. destruct w as [h [u|] pr sy us iv to nt]; reflexivity. Qed.

Lemma toggleListening_eq (c : Render) (w : World) :
  toggleListening c w =
  Ok tt (if isListening (state c) then with_hooks (set_isListening false) w
         else if isPlaying (state c)
              then mkWorld (set_isListening true (hooks w))
                           (speechSynthRef w) (progressIntervalRef w) (speechSynthesis w)
                           (utterances w) (intervals w)
                           (<[nextTimer w := mkTimer (ListenWindow true) 2000]> (timeouts w))
                           (Pos.succ (nextTimer w))
              else with_hooks (set_isListening true) w).
Proof.
  destruct w as [h r pr sy us iv to nt]. unfold toggleListening.
  destruct (isListening (state c)); [reflexivity |].
  destruct (isPlaying (state c)); reflexivity.
Qed.

Lemma followUp_eq (w : World) :
  run_callback FollowUp w =
  Ok tt (with_hooks (fun h => set_text (fun prev => (prev ++ followUp)%string)
                                (set_isListening false (set_interruptionDetected false h))) w).
Proof. destruct w as [h r pr sy us iv to nt]. reflexivity. Qed.

Lemma listenWindow_eq (w : World) :
  run_callback (ListenWindow true) w =
  Ok tt match speechSynthesis w with
        | Some sy =>
            mkWorld (set_isListening false
                       (set_interruptionDetected true (set_isPlaying false (hooks w))))
                    (speechSynthRef w) (progressIntervalRef w)
                    (Some (SpeechSynthesis.record SpeechSynthesis.pause sy))
                    (utterances w) (cleared w)
                    (<[nextTimer w := mkTimer FollowUp 1500]> (timeouts w))
                    (Pos.succ (nextTimer w))
        | None =>
            mkWorld (set_isListening false (set_interruptionDetected true (hooks w)))
                    (speechSynthRef w) (progressIntervalRef w) None
                    (utterances w) (intervals w)
                    (<[nextTimer w := mkTimer FollowUp 1500]> (timeouts w))
                    (Pos.succ (nextTimer w))
        end.
Proof.
  destruct w as [h r pr [sy|] us iv to nt]; [| reflexivity].
  destruct pr; reflexivity.
Qed.

Lemma listenWindow_stale_eq (w : World) :
  run_callback (ListenWindow false) w = Ok tt (with_hooks (set_isListening false) w).
Proof. destruct w as [h r pr sy us iv to nt]. reflexivity. Qed.

Lemma onstart_keeps_mute (u : nat) (w : World) :
  isMuted (hooks (world_of (onstart u w))) = isMuted (hooks w).
Proof.
  destruct (utterances w !! u) as [x|] eqn:Hx.
  - rewrite (onstart_eq _ x w Hx). reflexivity.
  - destruct w as [h r pr sy us iv to nt]; cbn in Hx.
    destruct pr; mrun; rewrite Hx; reflexivity.
Qed.

(** ** The invariant of reachable worlds *)

Lemma cleared_empty (w : World) :
  (forall id d, intervals w !! id = Some d -> progressIntervalRef w = Some id) ->
  cleared w = ∅.
Proof.
  intros H. apply map_eq. intros i. rewrite lookup_empty.
  unfold cleared. destruct (progressIntervalRef w) as [id|] eqn:Hr.
  - destruct (decide (id = i)) as [->|Hne].
    + apply lookup_delete_eq.
    + rewrite lookup_delete_ne by exact Hne.
      destruct (intervals w !! i) as [d|] eqn:Hi; [| reflexivity].
      apply H in Hi. congruence.
  - destruct (intervals w !! i) as [d|] eqn:Hi; [| reflexivity].
    apply H in Hi. discriminate.
Qed.

Lemma submitted_record (u : nat) (c : SpeechSynthesis.Call) (sy : SpeechSynthesis.t)
      (w w' : World) :
  speechSynthesis w = Some sy ->
  speechSynthesis w' = Some (SpeechSynthesis.record c sy) ->
  submitted u w' = true ->
  submitted u w = true \/ c = SpeechSynthesis.speak u.
Proof.
  unfold submitted. intros -> ->. cbn. rewrite !bool_decide_eq_true.
  rewrite elem_of_app, list_elem_of_singleton. intros [H|H]; [left | right]; auto.
Qed.

Lemma submitted_same (u : nat) (w w' : World) :
  speechSynthesis w' = speechSynthesis w -> submitted u w' = submitted u w.
Proof. unfold submitted. intros ->. reflexivity. Qed.

(** A step that leaves these observations alone keeps the invariant. *)
Lemma consistent_same (w w' : World) :
  isPlaying (hooks w') = isPlaying (hooks w) ->
  progress (hooks w') = progress (hooks w) ->
  intervals w' = intervals w ->
  progressIntervalRef w' = progressIntervalRef w ->
  speechSynthesis w' = speechSynthesis w ->
  speechSynthRef w' = speechSynthRef w ->
  length (utterances w') = length (utterances w) ->
  consistent w -> consistent w'.
Proof.
  intros Hp Hg Hi Hr Hs Hu Hl [I1 I2 I3 I4]. split.
  - rewrite Hi, Hr. exact I1.
  - rewrite Hi, Hp. exact I2.
  - rewrite Hs, Hp, Hg, Hu. intros H. destruct (I3 H) as (A & B & C & D).
    repeat split; try assumption.
    apply length_zero_iff_nil. rewrite Hl, D. reflexivity.
  - intros u. rewrite (submitted_same u w w' Hs), Hl. apply I4.
Qed.

Lemma submitted_after (c : SpeechSynthesis.Call) (sy : SpeechSynthesis.t) (w w' : World) :
  (forall u, c <> SpeechSynthesis.speak u) ->
  speechSynthesis w = Some sy ->
  speechSynthesis w' = Some (SpeechSynthesis.record c sy) ->
  forall u, submitted u w' = true -> submitted u w = true.
Proof.
  intros Hc Hs Hs' u Hu.
  destruct (submitted_record u c sy w w' Hs Hs' Hu) as [H|H]; [exact H |].
  destruct (Hc u H).
Qed.

(** A step that stops playback and clears the interval keeps it. *)
Lemma consistent_halted (w w' : World) :
  is_Some (speechSynthesis w') ->
  intervals w' = cleared w ->
  length (utterances w') = length (utterances w) ->
  (forall u, submitted u w' = true -> submitted u w = true) ->
  consistent w -> consistent w'.
Proof.
  intros Hs Hi Hl Hsub [I1 I2 I3 I4].
  assert (He : intervals w' = ∅) by (rewrite Hi; apply cleared_empty; exact I1).
  split.
  - intros id d. rewrite He, lookup_empty. discriminate.
  - intros _. exact He.
  - intros H. rewrite H in Hs. destruct Hs as [? Hs]. discriminate.
  - intros u Hu. rewrite Hl. apply I4, Hsub, Hu.
Qed.

(** A step that starts playback with a fresh interval keeps it. *)
Lemma consistent_started (w w' : World) (d : Q) :
  isPlaying (hooks w') = true ->
  intervals w' = <[nextTimer w := d]> (cleared w) ->
  progressIntervalRef w' = Some (nextTimer w) ->
  is_Some (speechSynthesis w') ->
  length (utterances w') = length (utterances w) ->
  (forall u, submitted u w' = true -> submitted u w = true) ->
  consistent w -> consistent w'.
Proof.
  intros Hp Hi Hr Hs Hl Hsub [I1 I2 I3 I4].
  rewrite (cleared_empty w I1) in Hi.
  split.
  - intros id d'. rewrite Hi, Hr. intros H.
    apply lookup_insert_Some in H as [[-> _]|[_ H]]; [reflexivity |].
    rewrite lookup_empty in H. discriminate.
  - rewrite Hp. discriminate.
  - intros H. rewrite H in Hs. destruct Hs as [? Hs]. discriminate.
  - intros u Hu. rewrite Hl. apply I4, Hsub, Hu.
Qed.

Lemma speak_consistent (c : Render) (w : World) :
  consistent w -> exists w', speak c w = Ok tt w' /\ consistent w'.
Proof.
  intros Hw. destruct (speechSynthesis w) as [sy|] eqn:Hs.
  - eexists. split; [apply speak_present; exact Hs |].
    destruct Hw as [I1 I2 I3 I4]. split; cbn.
    + exact I1.
    + exact I2.
    + discriminate.
    + intros u. unfold submitted; cbn. rewrite bool_decide_eq_true.
      rewrite length_app; cbn.
      rewrite !elem_of_app, !list_elem_of_singleton.
      intros [[[H|H]|H]|H]; try discriminate.
      * assert (Hu : submitted u w = true)
          by (unfold submitted; rewrite Hs; apply bool_decide_eq_true; exact H).
        apply I4 in Hu. lia.
      * injection H as ->. lia.
  - exists w. split; [apply speak_absent; exact Hs | exact Hw].
Qed.

Lemma callback_consistent (cb : Callback) (w : World) :
  consistent w -> exists w', run_callback cb w = Ok tt w' /\ consistent w'.
Proof.
  intros Hw. destruct cb as [[|]|].
  - eexists. split; [apply listenWindow_eq |].
    destruct (speechSynthesis w) as [sy|] eqn:Hs.
    + apply (consistent_halted w); [cbn; eauto | reflexivity | reflexivity | | exact Hw].
      apply (submitted_after SpeechSynthesis.pause sy); [discriminate | exact Hs | reflexivity].
    + apply (consistent_same w); cbn; auto.
  - eexists. split; [apply listenWindow_stale_eq |].
    apply (consistent_same w); cbn; auto.
  - eexists. split; [apply followUp_eq |].
    apply (consistent_same w); cbn; auto.
Qed.

Lemma handle_consistent (c : Render) (e : Event) (w : World) :
  consistent w -> can_fire e w = true ->
  exists w', handle c e w = Ok tt w' /\ consistent w'.
Proof.
  intros Hw Hf. destruct e; cbn [handle].
  - apply speak_consistent, Hw.
  - eexists. split; [apply pause_eq |].
    destruct (speechSynthesis w) as [sy|] eqn:Hs; [| exact Hw].
    apply (consistent_halted w); [cbn; eauto | reflexivity | reflexivity | | exact Hw].
    apply (submitted_after SpeechSynthesis.pause sy); [discriminate | exact Hs | reflexivity].
  - eexists. split; [apply resume_eq |].
    destruct (speechSynthesis w) as [sy|] eqn:Hs; [| exact Hw].
    apply (consistent_started w _ (roughDuration c));
      [reflexivity | reflexivity | reflexivity | cbn; eauto | reflexivity | | exact Hw].
    apply (submitted_after SpeechSynthesis.resume sy); [discriminate | exact Hs | reflexivity].
  - eexists. split; [apply stop_eq |].
    destruct (speechSynthesis w) as [sy|] eqn:Hs; [| exact Hw].
    apply (consistent_halted w); [cbn; eauto | reflexivity | reflexivity | | exact Hw].
    apply (submitted_after SpeechSynthesis.cancel sy); [discriminate | exact Hs | reflexivity].
  - eexists. split; [apply toggleMute_eq |].
    apply (consistent_same w); cbn; auto.
    destruct (speechSynthRef w), (speechSynthesis w); rewrite ?length_alter; reflexivity.
  - eexists. split; [apply toggleListening_eq |].
    apply (consistent_same w); auto;
      destruct (isListening (state c)), (isPlaying (state c)); reflexivity.
  - eexists. split; [reflexivity |].
    apply (consistent_same w); cbn; auto.
  - cbn in Hf. unfold mbind, M_bind, get.
    destruct (intervals w !! id) as [d|] eqn:Hd; [| discriminate].
    eexists. split; [reflexivity |].
    destruct Hw as [I1 I2 I3 I4]. split; cbn.
    + exact I1.
    + exact I2.
    + intros H. destruct (I3 H) as (_ & Hp & _).
      rewrite (I2 Hp), lookup_empty in Hd. discriminate.
    + exact I4.
  - cbn in Hf. unfold mbind, M_bind, get, modify.
    destruct (timeouts w !! id) as [tm|] eqn:Ht; [| discriminate].
    apply callback_consistent.
    apply (consistent_same w); cbn; auto.
  - cbn in Hf. pose proof (submitted_exists w Hw _ Hf) as Hlt.
    destruct (lookup_lt_is_Some_2 _ _ Hlt) as [x Hx].
    eexists. split; [apply (onstart_eq _ x); exact Hx |].
    apply (consistent_started w _ (duration x));
      [reflexivity | reflexivity | reflexivity | | reflexivity | auto | exact Hw].
    cbn. unfold submitted in Hf. destruct (speechSynthesis w); [eauto | discriminate].
  - cbn in Hf. eexists. split; [apply onend_eq |].
    apply (consistent_halted w); [| reflexivity | reflexivity | auto | exact Hw].
    cbn. unfold submitted in Hf. destruct (speechSynthesis w); [eauto | discriminate].
  - cbn in Hf. eexists. split; [apply onerror_eq |].
    apply (consistent_halted w); [| reflexivity | reflexivity | auto | exact Hw].
    cbn. unfold submitted in Hf. destruct (speechSynthesis w); [eauto | discriminate].
Qed.

Lemma commit_consistent (before after : Render) (w : World) :
  consistent w -> exists w', commit before after w = Ok tt w' /\ consistent w'.
Proof.
  intros Hw. unfold commit. destruct (deps_changed before after).
  - eexists. split; [apply volumeEffect_eq |].
    apply (consistent_same w); cbn; auto.
    destruct (speechSynthRef w); rewrite ?length_alter; reflexivity.
  - exists w. split; [reflexivity | exact Hw].
Qed.

(** An enabled event never throws, and keeps the invariant. *)
Lemma step_consistent (p : Props) (e : Event) (w : World) :
  consistent w -> can_fire e w = true ->
  exists w', step p e w = Ok tt w' /\ consistent w'.
Proof.
  intros Hw Hf. unfold step. unfold mbind, M_bind.
  destruct (handle_consistent (mkRender p (hooks w)) e w Hw Hf) as (w1 & -> & H1).
  unfold get. apply commit_consistent. exact H1.
Qed.

Lemma mounted_consistent (platform : option (list string)) : consistent (mounted platform).
Proof.
  destruct platform as [vs|]; split; cbn; try discriminate; auto.
Qed.

Lemma reachable_consistent (platform : option (list string)) (w : World) :
  reachable platform w -> consistent w.
Proof.
  induction 1 as [|w p e w' Hr IH Hf Hs].
  - apply mounted_consistent.
  - destruct (step_consistent p e w IH Hf) as (w'' & Hs' & Hc).
    rewrite Hs in Hs'. injection Hs' as ->. exact Hc.
Qed.

(** ** [stop] *)

(** With a speech service, [stop] resets whatever the progress was. *)
Lemma stop_any_progress (w : World) (sy : SpeechSynthesis.t) :
  speechSynthesis w = Some sy ->
  exists w', stop w = Ok tt w' /\
    progress (hooks w') = 0 /\ isPlaying (hooks w') = false /\
    speechSynthesis w' = Some (SpeechSynthesis.record SpeechSynthesis.cancel sy) /\
    intervals w' = cleared w.
Proof.
  intros Hs. eexists. split; [apply stop_eq |]. rewrite Hs. cbn. auto.
Qed.

(** C5.  In every world the player can be in, whatever the progress,
    [stop] returns a world with progress 0, nothing playing (the status the
    view shows is the idle one), no interval running, and, when there is a
    speech service, a [cancel] request as the latest request made to it. *)
Theorem stop_resets_playback (platform : option (list string)) (w : World) :
  reachable platform w ->
  exists w', stop w = Ok tt w' /\
    progress (hooks w') = 0 /\
    isPlaying (hooks w') = false /\
    status (hooks w') = Idle /\
    intervals w' = ∅ /\
    (forall sy, speechSynthesis w = Some sy ->
       speechSynthesis w' = Some (SpeechSynthesis.record SpeechSynthesis.cancel sy)) /\
    (speechSynthesis w = None -> utterances w' = []).
Proof.
  intros Hr. pose proof (reachable_consistent platform w Hr) as [I1 I2 I3 I4].
  eexists. split; [apply stop_eq |].
  destruct (speechSynthesis w) as [sy|] eqn:Hs.
  - cbn. repeat split.
    + apply cleared_empty, I1.
    + intros sy' [= ->]. reflexivity.
    + discriminate.
  - destruct (I3 eq_refl) as (Hp & Hpl & _ & Hu).
    split; [exact Hp |]. split; [exact Hpl |].
    split; [unfold status, showsResume; rewrite Hpl, Hp; reflexivity |].
    split; [apply I2, Hpl |].
    split; [rewrite Hs; discriminate | intros _; exact Hu].
Qed.

Lemma speaking_reachable : reachable Session.browser Session.speaking.
Proof.
  apply (reach_step _ (Session.after Session.firstProps [ClickSpeak] (mounted Session.browser))
                    Session.firstProps (OnStart 0%nat));
    [| vm_compute; reflexivity | vm_compute; reflexivity].
  apply (reach_step _ (mounted Session.browser) Session.firstProps ClickSpeak);
    [| vm_compute; reflexivity | vm_compute; reflexivity].
  apply reach_mount.
Defined.

Lemma stop_resets_playback_witness :
  isPlaying (hooks Session.speaking) = true /\
  exists w', stop Session.speaking = Ok tt w' /\ progress (hooks w') = 0 /\
             isPlaying (hooks w') = false /\ intervals w' = ∅.
Proof.
  split; [reflexivity |].
  destruct (stop_resets_playback Session.browser Session.speaking speaking_reachable)
    as (w' & H1 & H2 & H3 & _ & H5 & _).
  exists w'. auto.
Defined.

(** ** [pause] and [resume] *)



Lemma playing_has_service (platform : option (list string)) (w : World) :
  reachable platform w -> isPlaying (hooks w) = true -> is_Some (speechSynthesis w).
Proof.
  intros Hr Hp. pose proof (reachable_consistent platform w Hr) as [_ _ I3 _].
  destruct (speechSynthesis w) as [sy|]; [eauto |].
  destruct (I3 eq_refl) as (_ & H & _). congruence.
Qed.




(** ** The interruption loop *)

Lemma deps_same_mute (p : Props) (h h' : Hooks) :
  isMuted h' = isMuted h -> deps_changed (mkRender p h) (mkRender p h') = false.
Proof.
  intros H. unfold deps_changed; cbn. rewrite H, Bool.eqb_reflx, Qeq_bool_refl. reflexivity.
Qed.

Lemma step_elapsed (p : Props) (id : positive) (tm : Timer) (w : World) :
  timeouts w !! id = Some tm ->
  step p (Elapsed id) w = run_callback (callback tm) (with_timeouts (delete id) w).
Proof.
  intros H. unfold step, handle. unfold mbind, M_bind, get, modify. rewrite H.
  destruct tm as [[[|]|] d]; cbn [callback].
  - rewrite listenWindow_eq. unfold commit.
    rewrite deps_same_mute; [reflexivity |].
    destruct w as [h r pr [sy|] us iv to nt]; reflexivity.
  - rewrite listenWindow_stale_eq. unfold commit.
    rewrite deps_same_mute; reflexivity.
  - rewrite followUp_eq. unfold commit.
    rewrite deps_same_mute; reflexivity.
Qed.

Lemma step_mic (p : Props) (w : World) :
  step p ClickMic w = toggleListening (mkRender p (hooks w)) w.
Proof.
  unfold step, handle. unfold mbind, M_bind, get. rewrite toggleListening_eq.
  unfold commit. rewrite deps_same_mute; [reflexivity |].
  cbn. destruct (isListening (hooks w)), (isPlaying (hooks w)); reflexivity.
Qed.

(** C6.  When the microphone button is clicked while not listening and
    while speech is playing, listening starts and a 2000 ms timeout is set.
    Whenever that timeout runs in a world the player can be in, with speech
    still playing, the speech service receives [pause] (playback stops, the
    interval is cleared, the progress stays), [interruptionDetected] becomes
    true, and a 1500 ms timeout is set.  Whenever that second timeout runs,
    [interruptionDetected] is cleared, listening ends, and the canned
    follow-up sentence is appended to the text. *)
Theorem interruption_loop (platform : option (list string)) (p : Props) (w : World) :
  isListening (hooks w) = false ->
  isPlaying (hooks w) = true ->
  exists w1,
    step p ClickMic w = Ok tt w1 /\
    isListening (hooks w1) = true /\
    timeouts w1 !! nextTimer w = Some (mkTimer (ListenWindow true) 2000) /\
    forall p2 w2 id,
      reachable platform w2 ->
      isPlaying (hooks w2) = true ->
      timeouts w2 !! id = Some (mkTimer (ListenWindow true) 2000) ->
      exists w3 sy,
        step p2 (Elapsed id) w2 = Ok tt w3 /\
        speechSynthesis w2 = Some sy /\
        speechSynthesis w3 = Some (SpeechSynthesis.record SpeechSynthesis.pause sy) /\
        isPlaying (hooks w3) = false /\
        intervals w3 = ∅ /\
        progress (hooks w3) = progress (hooks w2) /\
        interruptionDetected (hooks w3) = true /\
        timeouts w3 !! nextTimer w2 = Some (mkTimer FollowUp 1500) /\
        forall p4 w4 id',
          timeouts w4 !! id' = Some (mkTimer FollowUp 1500) ->
          exists w5,
            step p4 (Elapsed id') w4 = Ok tt w5 /\
            interruptionDetected (hooks w5) = false /\
            isListening (hooks w5) = false /\
            text (hooks w5) = (text (hooks w4) ++ followUp)%string.
Proof.
  intros Hl Hp. eexists. split; [rewrite step_mic; apply toggleListening_eq |].
  cbn [state]. rewrite Hl, Hp.
  split; [reflexivity |]. split; [apply lookup_insert_eq |].
  intros p2 w2 id Hr2 Hp2 Ht2.
  destruct (playing_has_service platform w2 Hr2 Hp2) as [sy Hs].
  pose proof (reachable_consistent platform w2 Hr2) as [I1 _ _ _].
  eexists _, sy. split; [rewrite (step_elapsed _ _ _ _ Ht2); apply listenWindow_eq |].
  cbn [speechSynthesis with_timeouts]. rewrite Hs.
  split; [reflexivity |]. split; [reflexivity |]. split; [reflexivity |].
  split; [apply (cleared_empty (with_timeouts (delete id) w2)); exact I1 |].
  split; [reflexivity |]. split; [reflexivity |]. split; [apply lookup_insert_eq |].
  intros p4 w4 id' Ht4.
  eexists. split; [rewrite (step_elapsed _ _ _ _ Ht4); apply followUp_eq |].
  split; [reflexivity |]. split; reflexivity.
Qed.

Lemma listening_reachable : reachable Session.browser Session.listening.
Proof.
  apply (reach_step _ Session.speaking Session.firstProps ClickMic);
    [apply speaking_reachable | vm_compute; reflexivity | vm_compute; reflexivity].
Defined.

Lemma interruption_loop_witness :
  exists w3 w5,
    step Session.firstProps (Elapsed 2) Session.listening = Ok tt w3 /\
    isPlaying (hooks w3) = false /\
    interruptionDetected (hooks w3) = true /\
    step Session.firstProps (Elapsed 3) w3 = Ok tt w5 /\
    interruptionDetected (hooks w5) = false /\
    isListening (hooks w5) = false /\
    text (hooks w5) = (text (hooks w3) ++ followUp)%string.
Proof.
  destruct (interruption_loop Session.browser Session.firstProps Session.speaking
              eq_refl eq_refl) as (w1 & H1 & _ & _ & Hnext).
  destruct (Hnext Session.firstProps Session.listening 2%positive
              listening_reachable eq_refl eq_refl)
    as (w3 & sy & H3 & _ & _ & Hp & _ & _ & Hi & Ht & Hlast).
  destruct (Hlast Session.firstProps w3 3%positive Ht) as (w5 & H5 & Hi5 & Hl5 & Ht5).
  exists w3, w5. auto 10.
Defined.

End PlayerFacts.

(* ================================================================== *)
(** * Facts: mute, stored volume and the live utterance                *)
(* ================================================================== *)

Section MuteFacts.
Import Home TTSPlayer.

Lemma set_volume_twice (v v' : Q) (u : Utterance.t) :
  Utterance.set_volume v (Utterance.set_volume v' u) = Utterance.set_volume v u.
Proof. reflexivity. Qed.

Lemma deps_mute_flipped (p : Props) (h : Hooks) :
  deps_changed (mkRender p h) (mkRender p (set_isMuted (negb (isMuted h)) h)) = true.
Proof. unfold deps_changed; cbn. destruct (isMuted h); reflexivity. Qed.

(** The whole click on the mute button: handler, re-render and effect. *)
Lemma step_mute (p : Props) (w : World) :
  step p ClickMute w =
  Ok tt (mkWorld (set_isMuted (negb (isMuted (hooks w))) (hooks w))
                 (speechSynthRef w) (progressIntervalRef w) (speechSynthesis w)
                 match speechSynthRef w with
                 | Some u =>
                     alter (Utterance.set_volume
                              (if negb (isMuted (hooks w)) then 0
                               else volume (voiceSettings p)))
                           u (utterances w)
                 | None => utterances w
                 end
                 (intervals w) (timeouts w) (nextTimer w)).
Proof.
  unfold step, handle. unfold mbind, M_bind, get. rewrite toggleMute_eq.
  cbn [hooks state props]. unfold commit. rewrite deps_mute_flipped.
  rewrite volumeEffect_eq. cbn.
  destruct (speechSynthRef w) as [u|]; [| reflexivity].
  f_equal. f_equal.
  destruct (speechSynthesis w); [| reflexivity].
  apply list_eq. intros i. destruct (decide (i = u)) as [->|Hne].
  - rewrite !list_lookup_alter_eq. destruct (utterances w !! u); reflexivity.
  - rewrite !list_lookup_alter_ne by congruence. reflexivity.
Qed.

(** C8.  A click on the mute button leaves the page's voice settings,
    environment settings and gesture switch as they were; in the player it
    negates the mute flag and leaves every other state cell, both refs, the
    speech service, the timers and all utterances but the live one as they
    were; the live utterance keeps every field but its volume, which
    becomes 0 when muting and the stored volume when unmuting. *)
Theorem toggleMute_frame (a : App.t) :
  let a' := App.step (App.Player ClickMute) a in
  let w := App.player a in
  let w' := App.player a' in
  App.voiceSettings a' = App.voiceSettings a /\
  App.environmentSettings a' = App.environmentSettings a /\
  App.gestureEnabled a' = App.gestureEnabled a /\
  step (App.props a) ClickMute w = Ok tt w' /\
  hooks w' = set_isMuted (negb (isMuted (hooks w))) (hooks w) /\
  speechSynthRef w' = speechSynthRef w /\
  progressIntervalRef w' = progressIntervalRef w /\
  speechSynthesis w' = speechSynthesis w /\
  intervals w' = intervals w /\
  timeouts w' = timeouts w /\
  nextTimer w' = nextTimer w /\
  (forall i, speechSynthRef w <> Some i -> utterances w' !! i = utterances w !! i) /\
  (forall i u, speechSynthRef w = Some i -> utterances w !! i = Some u ->
     utterances w' !! i =
     Some (Utterance.set_volume
             (if isMuted (hooks w) then volume (App.voiceSettings a) else 0) u)).
Proof.
  cbn zeta. unfold App.step. cbn [App.voiceSettings App.environmentSettings
                                  App.gestureEnabled App.player].
  rewrite step_mute. cbn [world_of hooks speechSynthRef progressIntervalRef speechSynthesis
                          intervals timeouts nextTimer utterances].
  repeat (split; [reflexivity |]). split.
  - intros i Hi. destruct (speechSynthRef (App.player a)) as [u|]; [| reflexivity].
    apply list_lookup_alter_ne. congruence.
  - intros i u -> Hu. rewrite list_lookup_alter_eq, Hu. cbn.
    destruct (isMuted (hooks (App.player a))); reflexivity.
Qed.

Lemma toggleMute_frame_witness :
  App.voiceSettings Session.loudMuted = App.voiceSettings Session.loudSpoken /\
  exists u, live (App.player Session.loudMuted) = Some u /\ Utterance.volume u = 0.
Proof.
  pose proof (toggleMute_frame Session.loudSpoken) as H. cbn zeta in H.
  destruct H as (Hv & _ & _ & _ & _ & Hr & _ & _ & _ & _ & _ & _ & Hl).
  split; [exact Hv |].
  assert (Hu : exists u, utterances (App.player Session.loudSpoken) !! 0%nat = Some u)
    by (eexists; vm_compute; reflexivity).
  destruct Hu as [u Hu].
  specialize (Hl 0%nat u eq_refl Hu).
  eexists. split.
  - unfold live. change (App.player Session.loudMuted)
      with (App.player (App.step (App.Player ClickMute) Session.loudSpoken)).
    rewrite Hr. exact Hl.
  - reflexivity.
Defined.

(** ** Only the mute button changes the mute flag *)

Lemma commit_keeps_hooks (before after : Render) (w : World) :
  hooks (world_of (commit before after w)) = hooks w.
Proof.
  unfold commit. destruct (deps_changed before after); [| reflexivity].
  rewrite volumeEffect_eq. reflexivity.
Qed.

Lemma handle_keeps_mute (c : Render) (e : Event) (w : World) :
  e <> ClickMute ->
  isMuted (hooks (world_of (handle c e w))) = isMuted (hooks w).
Proof.
  intros He. destruct e; cbn [handle]; try congruence.
  - destruct (speechSynthesis w) as [sy|] eqn:Hs.
    + rewrite (speak_present c w sy Hs). reflexivity.
    + rewrite (speak_absent c w Hs). reflexivity.
  - rewrite pause_eq. destruct (speechSynthesis w); reflexivity.
  - rewrite resume_eq. destruct (speechSynthesis w); reflexivity.
  - rewrite stop_eq. destruct (speechSynthesis w); reflexivity.
  - rewrite toggleListening_eq.
    destruct (isListening (state c)), (isPlaying (state c)); reflexivity.
  - reflexivity.
  - unfold mbind, M_bind, get. destruct (intervals w !! id); reflexivity.
  - unfold mbind, M_bind, get, modify.
    destruct (timeouts w !! id) as [[[[|]|] d]|]; cbn [callback].
    + rewrite listenWindow_eq. cbn. destruct (speechSynthesis w); reflexivity.
    + rewrite listenWindow_stale_eq. reflexivity.
    + rewrite followUp_eq. reflexivity.
    + reflexivity.
  - apply onstart_keeps_mute.
  - rewrite onend_eq. reflexivity.
  - rewrite onerror_eq. reflexivity.
Qed.

Lemma step_keeps_mute (p : Props) (e : Event) (w : World) :
  e <> ClickMute ->
  isMuted (hooks (world_of (step p e w))) = isMuted (hooks w).
Proof.
  intros He. pose proof (handle_keeps_mute (mkRender p (hooks w)) e w He) as H.
  unfold step. unfold mbind, M_bind.
  destruct (handle (mkRender p (hooks w)) e w) as [[] w1|msg w1]; cbn in H.
  - unfold get. rewrite commit_keeps_hooks. exact H.
  - exact H.
Qed.

Lemma rerender_volume_changed (p p' : Props) (w : World) :
  ~ volume (voiceSettings p') == volume (voiceSettings p) ->
  rerender p p' w =
  Ok tt (mkWorld (hooks w) (speechSynthRef w) (progressIntervalRef w) (speechSynthesis w)
                 match speechSynthRef w with
                 | Some u =>
                     alter (Utterance.set_volume
                              (if isMuted (hooks w) then 0 else volume (voiceSettings p')))
                           u (utterances w)
                 | None => utterances w
                 end
                 (intervals w) (timeouts w) (nextTimer w)).
Proof.
  intros Hne. unfold rerender, commit.
  assert (Hd : deps_changed (mkRender p (hooks w)) (mkRender p' (hooks w)) = true).
  { unfold deps_changed; cbn. rewrite Bool.eqb_reflx; cbn.
    destruct (Qeq_bool (volume (voiceSettings p)) (volume (voiceSettings p'))) eqn:Hq;
      [| reflexivity].
    apply Qeq_bool_iff in Hq. destruct Hne. symmetry. exact Hq. }
  rewrite Hd. apply volumeEffect_eq.
Qed.

Lemma live_altered (f : Utterance.t -> Utterance.t) (h : Hooks) (r : nat)
      (pr : option positive) (sy : option SpeechSynthesis.t) (us : list Utterance.t)
      (iv : gmap positive Q) (to : gmap positive Timer) (nt : positive) (u : Utterance.t) :
  live (mkWorld h (Some r) pr sy (alter f r us) iv to nt) = Some u ->
  exists x, u = f x.
Proof.
  unfold live. cbn. rewrite list_lookup_alter_eq.
  destruct (us !! r) as [x|]; cbn; [| discriminate].
  intros [= <-]. exists x. reflexivity.
Qed.

(** C10.  Whenever an event changes the mute flag or the stored volume
    while [speechSynthRef] holds an utterance, that utterance's volume
    afterwards is exactly 0 if muted and exactly the stored volume if not.
    In particular, unmuting while [adaptToNoise] is on and the noise level is
    "high" leaves the live utterance at the stored volume, which for a
    stored volume strictly between 0 and 1 is not the boosted
    [Math.min(1, volume * 1.5)] that [speak] had applied. *)
Theorem live_volume_follows_mute_and_volume (a : App.t) (e : App.Event) (u : Utterance.t) :
  let a' := App.step e a in
  live (App.player a') = Some u ->
  ((isMuted (hooks (App.player a')) <> isMuted (hooks (App.player a)) \/
    ~ volume (App.voiceSettings a') == volume (App.voiceSettings a)) ->
   Utterance.volume u =
     if isMuted (hooks (App.player a')) then 0 else volume (App.voiceSettings a')) /\
  (e = App.Player ClickMute ->
   isMuted (hooks (App.player a)) = true ->
   adaptToNoise (App.environmentSettings a') = true ->
   noiseLevel (App.environmentSettings a') = "high" ->
   Utterance.volume u = volume (App.voiceSettings a') /\
   (0 < volume (App.voiceSettings a') -> volume (App.voiceSettings a') < 1 ->
    ~ Utterance.volume u == Qmin 1 (volume (App.voiceSettings a') * 1.5))).
Proof.
  cbn zeta. intros Hlive.
  assert (Hmute : e = App.Player ClickMute ->
            Utterance.volume u =
            if negb (isMuted (hooks (App.player a))) then 0 else volume (App.voiceSettings a)).
  { intros ->. unfold App.step in Hlive. cbn [App.player] in Hlive.
    rewrite step_mute in Hlive. cbn [world_of] in Hlive.
    destruct (speechSynthRef (App.player a)) as [r|] eqn:Hr; [| discriminate Hlive].
    apply live_altered in Hlive as [x ->]. reflexivity. }
  split.
  - intros Hch. destruct e as [upd|pe| |pe].
    + (* a write to the voice settings *)
      cbn [App.step App.player App.voiceSettings] in *.
      destruct Hch as [Hch|Hch].
      * destruct Hch. unfold rerender. rewrite commit_keeps_hooks. reflexivity.
      * unfold rerender in *. rewrite commit_keeps_hooks.
        pose proof (rerender_volume_changed (App.props a)
                      (mkProps (Store.apply (App.voiceSettings a) upd)
                               (App.environmentSettings a))
                      (App.player a) Hch) as Heq.
        unfold rerender in Heq. rewrite Heq in Hlive. cbn [world_of] in Hlive.
        destruct (speechSynthRef (App.player a)) as [r|] eqn:Hr; [| discriminate Hlive].
        apply live_altered in Hlive as [x ->]. reflexivity.
    + (* the noise detector *)
      cbn [App.step App.player App.voiceSettings] in *.
      destruct Hch as [Hch|Hch]; destruct Hch.
      * unfold rerender. rewrite commit_keeps_hooks. reflexivity.
      * reflexivity.
    + (* the gesture switch *)
      cbn [App.step App.player App.voiceSettings] in *.
      destruct Hch as [Hch|Hch]; destruct Hch; reflexivity.
    + (* the player *)
      destruct (decide (pe = ClickMute)) as [->|Hne].
      * rewrite (Hmute eq_refl).
        unfold App.step. cbn [App.player App.voiceSettings].
        rewrite step_mute. reflexivity.
      * cbn [App.step App.player App.voiceSettings] in *.
        destruct Hch as [Hch|Hch]; destruct Hch.
        -- apply step_keeps_mute. exact Hne.
        -- reflexivity.
  - intros -> Hm _ _. rewrite (Hmute eq_refl), Hm.
    cbn [App.step App.voiceSettings negb]. split; [reflexivity |].
    intros H0 H1 Heq.
    destruct (Q.min_spec_le 1 (volume (App.voiceSettings a) * 1.5)) as [[_ Hq]|[_ Hq]];
      rewrite Hq in Heq; lra.
Qed.

Lemma live_volume_witness :
  exists u,
    live (App.player Session.loudUnmuted) = Some u /\
    Utterance.volume u = volume (App.voiceSettings Session.loudUnmuted) /\
    ~ Utterance.volume u == Qmin 1 (volume (App.voiceSettings Session.loudUnmuted) * 1.5).
Proof.
  assert (Hu : exists u,
             live (App.player (App.step (App.Player ClickMute) Session.loudMuted)) = Some u)
    by (eexists; vm_compute; reflexivity).
  destruct Hu as [u Hu]. exists u.
  destruct (live_volume_follows_mute_and_volume Session.loudMuted (App.Player ClickMute) u Hu)
    as [Hgen Hun].
  destruct (Hun eq_refl eq_refl eq_refl eq_refl) as [H1 H2].
  split; [exact Hu |]. split.
  - rewrite Hgen; [reflexivity |]. left. vm_compute. discriminate.
  - apply H2; reflexivity.
Defined.

End MuteFacts.

(* ================================================================== *)
(** * Facts: the gesture monitor                                       *)
(* ================================================================== *)

Section GestureFacts.
Import GestureController.

(** The camera permission never becomes "granted": [startCamera] sets it
    only when [videoRef.current] is an element, and the [<video>] element
    is rendered only once the permission is "granted".  Hence no sampling
    frame is ever requested. *)
Lemma sampling_never_starts (s0 : Sample) (w : World) :
  reachable s0 w ->
  cameraPermission (hooks w) <> granted /\
  videoRef w = false /\ canvasRef w = false /\
  frames w = ∅ /\ animationFrameRef w = None.
Proof.
  induction 1 as [|w s e Hr IH Hf].
  - cbn. repeat split; discriminate.
  - destruct IH as (Hp & Hv & Hc & Hfr & Ha).
    destruct w as [[perm dg gc] en vr cr sr ar fr nf rq st ns ct rp];
      cbn in Hp, Hv, Hc, Hfr, Ha; subst vr cr fr ar.
    destruct e as [| |k ok|id|]; cbn in Hf.
    + destruct perm, en; try congruence; vm_compute; repeat split; congruence.
    + destruct perm, en; try congruence; vm_compute; repeat split; congruence.
    + unfold step, handle; cbn [requests].
      destruct (rq !! k) as [ce|] eqn:Hk; [| discriminate].
      destruct ok, ce, perm, en; try congruence; vm_compute; repeat split; congruence.
    + apply bool_decide_eq_true in Hf. set_solver.
    + destruct perm, en; try congruence; vm_compute; repeat split; congruence.
Qed.

(** C7, on the code.  The switch is turned on and the camera is granted,
    the switch is turned off, then on again and the camera is granted
    again: the switch is on, yet the permission is still "pending", no
    sampling loop runs, and two camera streams are open. *)
Theorem reenable_starts_no_loop :
  let s := mkSample 4 0.01 0.6 0.5 in
  let w := run s [Toggle; Answer 0 true; Toggle; Toggle; Answer 0 true] (mounted s) in
  enabled w = true /\
  cameraPermission (hooks w) = pending /\
  activeLoops w = 0%nat /\
  size (streams w) = 2%nat.
Proof. vm_compute. repeat split; reflexivity. Qed.

Lemma simulate_keeps_frames (s : Sample) (w : World) :
  frames (simulateGestureDetection s w) = frames w /\
  nextFrame (simulateGestureDetection s w) = nextFrame w.
Proof.
  unfold simulateGestureDetection.
  destruct (Qlt_le_dec 0.05 (draw_gate s)); [split; reflexivity |].
  destruct (gestures !! _); split; reflexivity.
Qed.

(** [startGestureDetection] does not look at [animationFrameRef]: called
    where the elements are mounted and a loop is already running, it adds a
    second loop, and [stopGestureDetection] then cancels only the latest
    frame. *)
Lemma startGestureDetection_unguarded (s : Sample) (w : World) :
  videoRef w = true -> canvasRef w = true -> nextFrame w ∉ frames w ->
  activeLoops (startGestureDetection true s w) = S (activeLoops w).
Proof.
  intros Hv Hc Hfresh. unfold startGestureDetection, detectGestures, activeLoops.
  rewrite Hv, Hc. cbn [negb orb andb].
  destruct (Z.eqb (readyState s) 4).
  - cbn. destruct (simulate_keeps_frames s w) as [-> ->].
    rewrite size_union by set_solver. rewrite size_singleton. reflexivity.
  - cbn. rewrite size_union by set_solver. rewrite size_singleton. reflexivity.
Qed.

End GestureFacts.


(* ================================================================== *)
(** * More facts: the settings stores                                  *)
(* ================================================================== *)

Section StoreMoreFacts.
Import Home Store.

Lemma eqb_cases (g k : string) : (String.eqb g k = true /\ g = k) \/ (String.eqb g k = false /\ g <> k).
Proof.
  destruct (String.eqb g k) eqn:H.
  - left. split; [reflexivity | apply String.eqb_eq; exact H].
  - right. split; [reflexivity | apply String.eqb_neq; exact H].
Qed.

Ltac known_gesture :=
  first [ reflexivity
        | intros [H|H]; discriminate H
        | intros H; exfalso; apply H; unfold GestureController.gestures; repeat constructor ].

(** X1.  A gesture never touches the voice, the pitch, the emotion or the
    style; the two volume gestures leave the rate alone and the two speed
    gestures leave the volume alone; a name that is none of the four
    gestures of the gesture monitor leaves the settings as they are. *)
Theorem gesture_writes_one_field (g : string) (s : VoiceSettings) :
  voice (onGestureDetected g s) = voice s /\
  pitch (onGestureDetected g s) = pitch s /\
  emotion (onGestureDetected g s) = emotion s /\
  style (onGestureDetected g s) = style s /\
  (g = "volume-up" \/ g = "volume-down" -> rate (onGestureDetected g s) = rate s) /\
  (g = "speed-up" \/ g = "speed-down" -> volume (onGestureDetected g s) = volume s) /\
  (g ∉ GestureController.gestures -> onGestureDetected g s = s).
Proof.
  unfold onGestureDetected.
  destruct (eqb_cases g "volume-up") as [[-> ->]|[-> H1]]; [cbn; repeat split; known_gesture |].
  destruct (eqb_cases g "volume-down") as [[-> ->]|[-> H2]]; [cbn; repeat split; known_gesture |].
  destruct (eqb_cases g "speed-up") as [[-> ->]|[-> H3]]; [cbn; repeat split; known_gesture |].
  destruct (eqb_cases g "speed-down") as [[-> ->]|[-> H4]]; [cbn; repeat split; known_gesture |].
  repeat split; reflexivity.
Qed.

Lemma gesture_writes_one_field_witness :
  rate (onGestureDetected "volume-up" initialVoiceSettings) = rate initialVoiceSettings /\
  volume (onGestureDetected "speed-down" initialVoiceSettings) = volume initialVoiceSettings /\
  onGestureDetected "wave" initialVoiceSettings = initialVoiceSettings.
Proof.
  destruct (gesture_writes_one_field "volume-up" initialVoiceSettings)
    as (_ & _ & _ & _ & Hr & _ & _).
  destruct (gesture_writes_one_field "speed-down" initialVoiceSettings)
    as (_ & _ & _ & _ & _ & Hv & _).
  destruct (gesture_writes_one_field "wave" initialVoiceSettings)
    as (_ & _ & _ & _ & _ & _ & Hn).
  split; [apply Hr; left; reflexivity |].
  split; [apply Hv; right; reflexivity |].
  apply Hn. unfold GestureController.gestures. intros H.
  repeat (apply elem_of_cons in H as [H|H]; [discriminate H |]).
  apply elem_of_nil in H. exact H.
Defined.

(** X2.  While the settings are within their ranges, "volume-up" and
    "speed-up" never lower their field and leave it at 2.0 once it is there;
    "volume-down" and "speed-down" never raise their field and leave it at
    its floor (0.1 for the volume, 0.5 for the rate) once it is there. *)
Theorem gesture_monotone_and_saturating (s : VoiceSettings) :
  in_range s ->
  (volume s <= volume (onGestureDetected "volume-up" s) /\
   (volume s == 2.0 -> volume (onGestureDetected "volume-up" s) == 2.0)) /\
  (volume (onGestureDetected "volume-down" s) <= volume s /\
   (volume s == 0.1 -> volume (onGestureDetected "volume-down" s) == 0.1)) /\
  (rate s <= rate (onGestureDetected "speed-up" s) /\
   (rate s == 2.0 -> rate (onGestureDetected "speed-up" s) == 2.0)) /\
  (rate (onGestureDetected "speed-down" s) <= rate s /\
   (rate s == 0.5 -> rate (onGestureDetected "speed-down" s) == 0.5)).
Proof.
  intros (Hr & Hp & Hv). cbn.
  repeat split.
  - apply Q.min_glb; lra.
  - intros H. apply Q.min_l. lra.
  - apply Q.max_lub; lra.
  - intros H. apply Q.max_l. lra.
  - apply Q.min_glb; lra.
  - intros H. apply Q.min_l. lra.
  - apply Q.max_lub; lra.
  - intros H. apply Q.max_l. lra.
Qed.

Lemma gesture_monotone_and_saturating_witness :
  volume initialVoiceSettings <= volume (onGestureDetected "volume-up" initialVoiceSettings) /\
  rate (onGestureDetected "speed-down" initialVoiceSettings) <= rate initialVoiceSettings.
Proof.
  assert (H0 : in_range initialVoiceSettings) by (unfold in_range; cbn; lra).
  destruct (gesture_monotone_and_saturating initialVoiceSettings H0)
    as ((Hv & _) & _ & _ & (Hr & _)).
  split; assumption.
Defined.

(** X3.  The volume gesture goes past the volume slider: from any stored
    volume of at least 1, the slider's maximum, "volume-up" stores a volume
    that the slider cannot report. *)
Theorem gesture_volume_exceeds_slider (s : VoiceSettings) :
  1 <= volume s ->
  ~ VoiceCustomizer.within VoiceCustomizer.volume_slider
      (volume (onGestureDetected "volume-up" s)).
Proof.
  intros Hv [_ Hmax]. cbn in Hmax.
  destruct (Q.min_spec_le 2.0 (volume s + 0.1)) as [[_ Hq]|[_ Hq]];
    rewrite Hq in Hmax; lra.
Qed.

Lemma gesture_volume_exceeds_slider_witness :
  ~ VoiceCustomizer.within VoiceCustomizer.volume_slider
      (volume (onGestureDetected "volume-up" initialVoiceSettings)).
Proof.
  apply (gesture_volume_exceeds_slider initialVoiceSettings). cbn. lra.
Defined.

(** X4.  The monitors do not interfere: an emotion report commutes with
    every gesture and with every control of the customizer except its own
    emotion picker, so the stored settings do not depend on which of the two
    events fired first. *)
Theorem emotion_commutes (e : string) (u : Update) (s : VoiceSettings) :
  match u with
  | Emotion _ | Manual (VoiceCustomizer.EmotionRadio _) => False
  | _ => True
  end ->
  run [Emotion e; u] s = run [u; Emotion e] s.
Proof.
  destruct u as [c|e'|g]; cbn.
  - destruct c; intros H; try destruct H; reflexivity.
  - intros [].
  - intros _. unfold onGestureDetected; cbn.
    repeat (destruct (String.eqb g _); [reflexivity |]). reflexivity.
Qed.

Lemma emotion_commutes_witness :
  run [Emotion "happy"; Gesture "volume-up"] initialVoiceSettings =
  run [Gesture "volume-up"; Emotion "happy"] initialVoiceSettings.
Proof.
  apply (emotion_commutes "happy" (Gesture "volume-up") initialVoiceSettings). exact I.
Defined.

End StoreMoreFacts.

(* ================================================================== *)
(** * More facts: the noise monitor                                    *)
(* ================================================================== *)

Section NoiseMoreFacts.
Import Home NoiseDetector.

Lemma sum_from (dataArray : list Byte.byte) (acc : Z) :
  fold_left (fun acc b => (acc + Z.of_N (Byte.to_N b))%Z) dataArray acc =
  (acc + sum dataArray)%Z.
Proof.
  unfold sum. revert acc. induction dataArray as [|b l IH]; intros acc; cbn [fold_left].
  - lia.
  - rewrite (IH (acc + Z.of_N (Byte.to_N b))%Z), (IH (0 + Z.of_N (Byte.to_N b))%Z). lia.
Qed.

Lemma sum_bounds (dataArray : list Byte.byte) :
  (0 <= sum dataArray <= 255 * Z.of_nat (length dataArray))%Z.
Proof.
  induction dataArray as [|b l IH].
  - cbn. lia.
  - unfold sum. cbn [fold_left length]. rewrite sum_from.
    pose proof (Byte.to_N_bounded b) as Hb. lia.
Qed.

Lemma scaled_average (dataArray : list Byte.byte) :
  length dataArray = frequencyBinCount ->
  average dataArray * 1.5 == inject_Z (3 * sum dataArray) * (1 # 256).
Proof.
  intros Hl. unfold average. rewrite Hl. rewrite inject_Z_mult.
  change (inject_Z (Z.of_nat frequencyBinCount)) with 128.
  change (inject_Z 3) with 3. field.
Qed.

(** X5.  On a full frame of 128 frequency bins the class is decided by
    the byte sum alone: "low" exactly when three times the sum is below 5120,
    "high" exactly when it is above 15360 (a mean magnitude above 40), and
    the stored noise value is the full 100 exactly when it reaches 25600. *)
Theorem noise_class_from_bytes (dataArray : list Byte.byte) :
  length dataArray = frequencyBinCount ->
  let v := normalize (average dataArray) in
  (classify v = "low" <-> (3 * sum dataArray < 5120)%Z) /\
  (classify v = "high" <-> (15360 < 3 * sum dataArray)%Z) /\
  (v == 100 <-> (25600 <= 3 * sum dataArray)%Z).
Proof.
  intros Hl v.
  pose proof (scaled_average dataArray Hl) as Hs.
  pose proof (sum_bounds dataArray) as [H0 _].
  assert (Hz : 0 <= inject_Z (3 * sum dataArray))
    by (change 0 with (inject_Z 0); rewrite <- Zle_Qle; lia).
  set (z := (3 * sum dataArray)%Z) in *.
  assert (Hlt : forall k : Z, inject_Z z * (1 # 256) < inject_Z k <-> (z < 256 * k)%Z).
  { intros k. rewrite Zlt_Qlt, inject_Z_mult. change (inject_Z 256) with 256.
    generalize (inject_Z z) (inject_Z k). intros q r. split; intros; lra. }
  assert (Hgt : forall k : Z, inject_Z k < inject_Z z * (1 # 256) <-> (256 * k < z)%Z).
  { intros k. rewrite Zlt_Qlt, inject_Z_mult. change (inject_Z 256) with 256.
    generalize (inject_Z z) (inject_Z k). intros q r. split; intros; lra. }
  assert (Hv : v == Qmin 100 (inject_Z z * (1 # 256))).
  { unfold v, normalize. rewrite Hs. rewrite Q.max_r; [reflexivity |].
    clear -Hz. generalize dependent (inject_Z z). intros q Hq. lra. }
  clearbody v. clear Hs.
  specialize (Hlt 20%Z) as Hlow. specialize (Hgt 60%Z) as Hhigh. specialize (Hlt 100%Z) as Hfull.
  change (inject_Z 20) with 20 in Hlow. change (inject_Z 60) with 60 in Hhigh.
  change (inject_Z 100) with 100 in Hfull.
  change (256 * 20)%Z with 5120%Z in Hlow. change (256 * 60)%Z with 15360%Z in Hhigh.
  change (256 * 100)%Z with 25600%Z in Hfull.
  clear Hlt Hgt. set (q := inject_Z z) in *. clearbody q.
  split; [| split].
  - rewrite classify_low, Hv, <- Hlow, Q.min_lt_iff.
    split; [intros [H|H]; [lra | exact H] | intros H; right; exact H].
  - rewrite classify_high, Hv, <- Hhigh, Q.min_glb_lt_iff.
    split; [intros [_ H]; exact H | intros H; split; [lra | exact H]].
  - rewrite Hv. split.
    + intros H. apply Z.le_ngt. intros Hc. apply Hfull in Hc.
      rewrite Q.min_r in H by lra. lra.
    + intros H. apply Q.min_l. apply Z.le_ngt in H.
      destruct (Qlt_le_dec (q * (1 # 256)) 100) as [Hc|Hc]; [| exact Hc].
      destruct H. apply Hfull. exact Hc.
Qed.

Lemma noise_class_from_bytes_witness :
  classify (normalize (average (replicate 128 Byte.x78))) = "high".
Proof.
  apply (noise_class_from_bytes (replicate 128 Byte.x78)); [reflexivity |].
  vm_compute. reflexivity.
Defined.

(** X6.  Whatever the noise detector samples, with whatever settings its
    loop closed over, and however often the adaptation switch is flipped, the
    stored noise level is one of "low", "normal" and "high"; sampling never
    changes [adaptToNoise], which is on exactly after an even number of
    flips. *)
Theorem environment_store_invariant (us : list EnvStore.Update) :
  noiseLevel (EnvStore.run us initialEnvironmentSettings) ∈ ["low"; "normal"; "high"] /\
  adaptToNoise (EnvStore.run us initialEnvironmentSettings) =
    Nat.even (length (List.filter EnvStore.isSwitch us)).
Proof.
  unfold EnvStore.run.
  assert (H : forall s,
             noiseLevel s ∈ ["low"; "normal"; "high"] ->
             noiseLevel (fold_left EnvStore.apply us s) ∈ ["low"; "normal"; "high"] /\
             adaptToNoise (fold_left EnvStore.apply us s) =
               xorb (negb (adaptToNoise s))
                    (Nat.even (length (List.filter EnvStore.isSwitch us)))).
  { induction us as [|u us IH]; intros s Hs.
    - cbn. split; [exact Hs | destruct (adaptToNoise s); reflexivity].
    - cbn [fold_left]. destruct u as [closed dataArray|].
      + cbn [List.filter EnvStore.isSwitch].
        assert (Hstep : noiseLevel (EnvStore.apply s (EnvStore.NoiseTick closed dataArray))
                          ∈ ["low"; "normal"; "high"] /\
                        adaptToNoise (EnvStore.apply s (EnvStore.NoiseTick closed dataArray))
                          = adaptToNoise s).
        { cbn. destruct (String.eqb _ _); [split; [exact Hs | reflexivity] |].
          cbn. split; [| reflexivity]. unfold classify.
          destruct (Qlt_le_dec _ 20); [repeat constructor |].
          destruct (Qlt_le_dec 60 _); repeat constructor. }
        destruct Hstep as [Hn Ha]. destruct (IH _ Hn) as [IH1 IH2].
        split; [exact IH1 | rewrite IH2, Ha; reflexivity].
      + cbn [List.filter EnvStore.isSwitch].
        destruct (IH (EnvStore.apply s EnvStore.AdaptationSwitch) Hs) as [IH1 IH2].
        split; [exact IH1 |]. rewrite IH2. cbn [length]. rewrite Nat.even_succ.
        rewrite <- Nat.negb_even. cbn.
        destruct (adaptToNoise s), (Nat.even _); reflexivity. }
  destruct (H initialEnvironmentSettings) as [H1 H2]; [cbn; repeat constructor |].
  split; [exact H1 |]. rewrite H2. cbn. destruct (Nat.even _); reflexivity.
Qed.

(** X7.  The label beside the meter and the stored class agree on every
    noise value but one: at exactly 60 the label reads "High" while the class
    reported to the store is "normal".  The hint below the meter follows the
    class: "increase volume" exactly for "high", "decrease volume" exactly
    for "low". *)
Theorem label_and_class (v : Q) :
  (label v = "Low" <-> classify v = "low") /\
  (label v = "Normal" -> classify v = "normal") /\
  (classify v = "high" -> label v = "High") /\
  (label v = "High" /\ classify v = "normal" <-> v == 60) /\
  (hint v = "increase volume" <-> classify v = "high") /\
  (hint v = "decrease volume" <-> classify v = "low").
Proof.
  unfold label, hint, classify.
  destruct (Qlt_le_dec v 20) as [H1|H1]; destruct (Qlt_le_dec v 60) as [H2|H2];
    destruct (Qlt_le_dec 60 v) as [H3|H3];
    repeat split; try discriminate; try reflexivity; try (intros; lra);
    try (intros [? ?]; discriminate).
Qed.

Lemma label_and_class_witness : label 60 = "High" /\ classify 60 = "normal".
Proof.
  apply (proj1 (proj2 (proj2 (proj2 (label_and_class 60))))). reflexivity.
Defined.

End NoiseMoreFacts.

(* ================================================================== *)
(** * More facts: the playback controller                              *)
(* ================================================================== *)

Section PlayerMoreFacts.
Import Home TTSPlayer.

(** An event that leaves the mute flag alone is its handler: the re-render
    runs no effect. *)
Lemma step_plain (p : Props) (e : Event) (w w1 : World) :
  handle (mkRender p (hooks w)) e w = Ok tt w1 ->
  isMuted (hooks w1) = isMuted (hooks w) ->
  step p e w = Ok tt w1.
Proof.
  intros Hh Hm. unfold step. unfold mbind, M_bind. rewrite Hh.
  unfold get, commit. rewrite deps_same_mute by exact Hm. reflexivity.
Qed.

(** ** [speak] *)

(** X8.  With a speech service, in any world the player can be in,
    [speak] asks the service to cancel, to list its voices and to speak, in
    that order; what it passes is a new utterance object, never handed to the
    service before, carrying the text, rate and pitch of the current render
    and the voice picked from the catalogue; all earlier utterances, the
    state cells and the timers are left as they were, so the status changes
    only once the service reports the start. *)
Theorem speak_submits_fresh_utterance
        (platform : option (list string)) (c : Render) (w : World) (sy : SpeechSynthesis.t) :
  reachable platform w ->
  speechSynthesis w = Some sy ->
  exists w' u,
    speak c w = Ok tt w' /\
    SpeechSynthesis.calls <$> speechSynthesis w' =
      Some (SpeechSynthesis.calls sy ++
            [SpeechSynthesis.cancel; SpeechSynthesis.getVoices;
             SpeechSynthesis.speak (length (utterances w))]) /\
    submitted (length (utterances w)) w = false /\
    utterances w' = utterances w ++ [u] /\
    speechSynthRef w' = Some (length (utterances w)) /\
    Utterance.text u = text (state c) /\
    Utterance.rate u = rate (voiceSettings (props c)) /\
    Utterance.pitch u = pitch (voiceSettings (props c)) /\
    Utterance.voice u = selectVoice (SpeechSynthesis.voices sy) (voice (voiceSettings (props c))) /\
    hooks w' = hooks w /\ intervals w' = intervals w /\ timeouts w' = timeouts w.
Proof.
  intros Hr Hs. eexists _, (built c (SpeechSynthesis.voices sy)).
  split; [apply speak_present; exact Hs |]. cbn.
  split; [rewrite <- !app_assoc; reflexivity |].
  split.
  { destruct (submitted (length (utterances w)) w) eqn:Hsub; [| reflexivity].
    apply (submitted_exists w (reachable_consistent platform w Hr)) in Hsub. lia. }
  repeat split; reflexivity.
Qed.

Lemma speak_submits_fresh_utterance_witness :
  exists w' u,
    speak (mkRender Session.firstProps (hooks Session.speaking)) Session.speaking = Ok tt w' /\
    utterances w' = utterances Session.speaking ++ [u] /\
    submitted (length (utterances Session.speaking)) Session.speaking = false.
Proof.
  destruct (speak_submits_fresh_utterance Session.browser
              (mkRender Session.firstProps (hooks Session.speaking)) Session.speaking
              (SpeechSynthesis.mk ["en-US-Neural2-F"]
                 [SpeechSynthesis.getVoices; SpeechSynthesis.cancel;
                  SpeechSynthesis.getVoices; SpeechSynthesis.speak 0])
              speaking_reachable eq_refl)
    as (w' & u & H1 & _ & H3 & H4 & _).
  exists w', u. auto.
Defined.

Lemma find_wanted (voices : list string) (wanted : string) :
  wanted ∈ voices -> find (String.eqb wanted) voices = Some wanted.
Proof.
  induction voices as [|v vs IH]; cbn.
  - intros H. inversion H.
  - intros H. destruct (String.eqb wanted v) eqn:He.
    + apply String.eqb_eq in He. subst v. reflexivity.
    + apply String.eqb_neq in He.
      apply elem_of_cons in H as [H|H]; [congruence | exact (IH H)].
Qed.

Lemma selectVoice_member (voices : list string) (wanted : string) :
  wanted ∈ voices -> selectVoice voices wanted = Some wanted.
Proof. intros H. unfold selectVoice. rewrite (find_wanted voices wanted H). reflexivity. Qed.

(** X9.  The voice of a request: the voice named in the settings when the
    catalogue has it, the first voice of the catalogue when it has not, and
    no voice exactly when the catalogue is empty; the voice used is always
    one of the catalogue. *)
Theorem selectVoice_falls_back (voices : list string) (wanted : string) :
  (wanted ∈ voices -> selectVoice voices wanted = Some wanted) /\
  (wanted ∉ voices -> selectVoice voices wanted = head voices) /\
  (selectVoice voices wanted = None <-> voices = []) /\
  (forall v, selectVoice voices wanted = Some v -> v ∈ voices).
Proof.
  unfold selectVoice.
  assert (Hfind : (wanted ∈ voices -> find (String.eqb wanted) voices = Some wanted) /\
                  (wanted ∉ voices -> find (String.eqb wanted) voices = None)).
  { induction voices as [|v vs [IH1 IH2]]; cbn.
    - split; [intros H; inversion H | reflexivity].
    - destruct (String.eqb wanted v) eqn:He.
      + apply String.eqb_eq in He. subst v.
        split; [reflexivity | intros H; destruct H; constructor].
      + apply String.eqb_neq in He. split.
        * intros H. apply elem_of_cons in H as [H|H]; [congruence | apply IH1, H].
        * intros H. apply IH2. intros Hin. apply H. constructor. exact Hin. }
  destruct Hfind as [Hin Hout].
  split; [intros H; rewrite (Hin H); reflexivity |].
  split; [intros H; rewrite (Hout H); reflexivity |].
  destruct (decide (wanted ∈ voices)) as [H|H].
  - rewrite (Hin H). split.
    + split; [discriminate | intros ->; inversion H].
    + intros v [= <-]. exact H.
  - rewrite (Hout H). destruct voices as [|v0 vs]; cbn.
    + split; [split; reflexivity | discriminate].
    + split; [split; discriminate | intros v [= <-]; constructor].
Qed.

Lemma selectVoice_falls_back_witness :
  selectVoice ["Alice"; "Bob"] "Bob" = Some "Bob" /\
  selectVoice ["Alice"; "Bob"] "default" = Some "Alice".
Proof.
  split.
  - apply (proj1 (selectVoice_falls_back ["Alice"; "Bob"] "Bob")).
    repeat constructor.
  - apply (proj1 (proj2 (selectVoice_falls_back ["Alice"; "Bob"] "default"))).
    intros H. repeat (apply elem_of_cons in H as [H|H]; [discriminate H |]).
    inversion H.
Defined.

(** X10.  What adaptation does to the volume of an unmuted request with a
    non-negative stored volume: nothing unless the noise level is "high",
    even when [adaptToNoise] is on; in "high" noise the request never carries
    more than 1, never less than the stored volume when that is at most 1,
    and exactly 1 when the stored volume is above 1, which lowers it. *)
Theorem adaptation_caps_volume (c : Render) (w : World) (sy : SpeechSynthesis.t) :
  speechSynthesis w = Some sy ->
  isMuted (state c) = false ->
  0 <= volume (voiceSettings (props c)) ->
  exists w' u,
    speak c w = Ok tt w' /\ spoken w' = Some u /\
    (noiseLevel (environmentSettings (props c)) <> "high" ->
     Utterance.volume u = volume (voiceSettings (props c))) /\
    (adaptToNoise (environmentSettings (props c)) = true ->
     noiseLevel (environmentSettings (props c)) = "high" ->
     Utterance.volume u <= 1 /\
     (volume (voiceSettings (props c)) <= 1 ->
      volume (voiceSettings (props c)) <= Utterance.volume u) /\
     (1 < volume (voiceSettings (props c)) ->
      Utterance.volume u == 1 /\ Utterance.volume u < volume (voiceSettings (props c)))).
Proof.
  intros Hs Hm Hv. eexists _, (built c (SpeechSynthesis.voices sy)).
  split; [apply speak_present; exact Hs |].
  split; [unfold spoken; cbn; rewrite last_snoc, lookup_snoc; reflexivity |].
  unfold built; cbn. rewrite Hm. split.
  - intros Hn. apply String.eqb_neq in Hn. rewrite Hn, andb_false_r. reflexivity.
  - intros -> ->. cbn.
    set (v := volume (voiceSettings (props c))) in *.
    split; [apply Q.le_min_l |]. split.
    + intros H1. apply Q.min_glb; lra.
    + intros H1. assert (He : Qmin 1 (v * 1.5) == 1) by (apply Q.min_l; lra).
      split; [exact He | rewrite He; exact H1].
Qed.

Lemma adaptation_caps_volume_witness :
  exists w' u,
    speak (mkRender (mkProps (mkVoice "en-US-Neural2-F" 1 1 1.5 "neutral" "casual")
                             (mkEnv "high" true)) initialHooks)
          (mounted Session.browser) = Ok tt w' /\
    spoken w' = Some u /\ Utterance.volume u == 1.
Proof.
  destruct (adaptation_caps_volume
              (mkRender (mkProps (mkVoice "en-US-Neural2-F" 1 1 1.5 "neutral" "casual")
                                 (mkEnv "high" true)) initialHooks)
              (mounted Session.browser)
              (SpeechSynthesis.mk ["en-US-Neural2-F"] [SpeechSynthesis.getVoices])
              eq_refl eq_refl)
    as (w' & u & H1 & H2 & _ & H4).
  - cbn. lra.
  - exists w', u. split; [exact H1 |]. split; [exact H2 |].
    destruct (H4 eq_refl eq_refl) as (_ & _ & H5). apply H5. cbn. lra.
Defined.

(** ** The end of an utterance *)

Lemma submitted_has_service (u : nat) (w : World) :
  submitted u w = true -> is_Some (speechSynthesis w).
Proof. unfold submitted. destruct (speechSynthesis w); [eauto | discriminate]. Qed.

(** X11.  When the service reports the end of an utterance, in any world
    the player can be in, the progress is forced to 100 whatever it was,
    nothing is playing and no interval is left running; the view then shows
    the idle status without a Resume button, and keeps the Stop button
    enabled. *)
Theorem onend_completes (platform : option (list string)) (p : Props) (u : nat) (w : World) :
  reachable platform w ->
  can_fire (OnEnd u) w = true ->
  exists w',
    step p (OnEnd u) w = Ok tt w' /\
    progress (hooks w') = 100 /\
    isPlaying (hooks w') = false /\
    intervals w' = ∅ /\
    status (hooks w') = Idle /\
    showsResume (hooks w') = false /\
    stopDisabled (hooks w') = false.
Proof.
  intros Hr Hf.
  pose proof (reachable_consistent platform w Hr) as [I1 _ _ _].
  eexists. split; [apply step_plain; [apply onend_eq | reflexivity] |].
  cbn. repeat split. apply cleared_empty, I1.
Qed.

Lemma onend_completes_witness :
  exists w', step Session.firstProps (OnEnd 0%nat) Session.speaking = Ok tt w' /\
             progress (hooks w') = 100 /\ intervals w' = ∅.
Proof.
  destruct (onend_completes Session.browser Session.firstProps 0%nat Session.speaking
              speaking_reachable eq_refl) as (w' & H1 & H2 & _ & H4 & _).
  exists w'. auto.
Defined.

(** X12.  When the service reports an error, playback stops and the
    interval is cleared, but the progress stays where it was: the view shows
    the paused status, with its Resume button, exactly when that progress is
    strictly between 0 and 100. *)
Theorem onerror_keeps_progress (platform : option (list string)) (p : Props) (u : nat)
        (w : World) :
  reachable platform w ->
  can_fire (OnError u) w = true ->
  exists w',
    step p (OnError u) w = Ok tt w' /\
    progress (hooks w') = progress (hooks w) /\
    isPlaying (hooks w') = false /\
    intervals w' = ∅ /\
    (status (hooks w') = Paused <-> 0 < progress (hooks w) /\ progress (hooks w) < 100).
Proof.
  intros Hr Hf.
  pose proof (reachable_consistent platform w Hr) as [I1 _ _ _].
  eexists. split; [apply step_plain; [apply onerror_eq | reflexivity] |].
  cbn. split; [reflexivity |]. split; [reflexivity |].
  split; [apply cleared_empty, I1 |].
  unfold status, showsResume; cbn.
  destruct (Qlt_le_dec 0 (progress (hooks w))), (Qlt_le_dec (progress (hooks w)) 100); cbn;
    split; try discriminate; try (intros [? ?]; lra); auto.
Qed.

Lemma onerror_keeps_progress_witness :
  exists w', step Session.firstProps (OnError 0%nat) Session.speaking = Ok tt w' /\
             progress (hooks w') = progress (hooks Session.speaking) /\
             isPlaying (hooks w') = false.
Proof.
  destruct (onerror_keeps_progress Session.browser Session.firstProps 0%nat Session.speaking
              speaking_reachable eq_refl) as (w' & H1 & H2 & H3 & _).
  exists w'. auto.
Defined.

(** ** The progress ticker *)

(** X13.  One tick of an interval with a positive duration, from a
    progress of at most 100: the progress does not go down, does not pass
    100, and stays at 100 once it is there. *)
Theorem advance_bounded (d prev : Q) :
  0 < d -> prev <= 100 ->
  prev <= advance d prev /\ advance d prev <= 100 /\
  (prev == 100 -> advance d prev == 100).
Proof.
  intros Hd Hp. unfold advance.
  assert (Hinc : 0 < 100 / d) by (apply Qlt_shift_div_l; lra).
  destruct (Qeq_bool d 0) eqn:Hz.
  - apply Qeq_bool_iff in Hz. lra.
  - set (inc := 100 / d) in *. clearbody inc.
    destruct (Qlt_le_dec 100 (prev + inc)) as [H|H];
      repeat split; try lra; intros; lra.
Qed.

Lemma advance_bounded_witness : 40 <= advance 200 40 /\ advance 200 40 <= 100.
Proof.
  destruct (advance_bounded 200 40) as (H1 & H2 & _); [reflexivity | | split; assumption].
  unfold Qle; cbn; lia.
Defined.

(** X14.  In every world the player can be in, at most one progress
    interval is running: any interval that runs is the one whose id is in
    [progressIntervalRef], and something is playing. *)
Theorem single_ticker (platform : option (list string)) (w : World) :
  reachable platform w ->
  (forall id d, intervals w !! id = Some d ->
     progressIntervalRef w = Some id /\ isPlaying (hooks w) = true) /\
  (forall id1 id2 d1 d2,
     intervals w !! id1 = Some d1 -> intervals w !! id2 = Some d2 -> id1 = id2).
Proof.
  intros Hr. pose proof (reachable_consistent platform w Hr) as [I1 I2 _ _].
  split.
  - intros id d H. split; [apply (I1 id d H) |].
    destruct (isPlaying (hooks w)) eqn:Hp; [reflexivity |].
    rewrite (I2 eq_refl), lookup_empty in H. discriminate.
  - intros id1 id2 d1 d2 H1 H2. apply I1 in H1. apply I1 in H2. congruence.
Qed.

Lemma single_ticker_witness :
  progressIntervalRef Session.speaking = Some 1%positive /\
  isPlaying (hooks Session.speaking) = true.
Proof.
  assert (H : exists d, intervals Session.speaking !! 1%positive = Some d)
    by (eexists; vm_compute; reflexivity).
  destruct H as [d H].
  exact (proj1 (single_ticker Session.browser Session.speaking speaking_reachable)
               1%positive d H).
Defined.

(** X15.  No handler throws: in every world the player can be in, every
    click, and every timer or utterance callback that is registered, runs to
    completion, with or without a speech service. *)
Theorem handlers_never_throw (platform : option (list string)) (p : Props) (e : Event)
        (w : World) :
  reachable platform w ->
  can_fire e w = true ->
  exists w', step p e w = Ok tt w' /\ reachable platform w'.
Proof.
  intros Hr Hf.
  destruct (step_consistent p e w (reachable_consistent platform w Hr) Hf) as (w' & Hs & _).
  exists w'. split; [exact Hs |]. exact (reach_step platform w p e w' Hr Hf Hs).
Qed.

Lemma handlers_never_throw_witness :
  exists w', step Session.firstProps ClickResume (mounted None) = Ok tt w'.
Proof.
  destruct (handlers_never_throw None Session.firstProps ClickResume (mounted None)
              (reach_mount None) eq_refl) as (w' & H & _).
  exists w'. exact H.
Defined.

(** ** The progress is a percentage *)

Lemma length_of_nonneg (s : string) : 0 <= length_of s.
Proof.
  unfold length_of. change 0 with (inject_Z 0). rewrite <- Zle_Qle. lia.
Qed.

Lemma duration_nonneg (x : Utterance.t) : 0 < Utterance.rate x -> 0 <= duration x.
Proof.
  intros Hr. unfold duration.
  assert (H : 0 <= length_of (Utterance.text x) / Utterance.rate x).
  { apply Qle_shift_div_l; [exact Hr |]. rewrite Qmult_0_l. apply length_of_nonneg. }
  revert H. generalize (length_of (Utterance.text x) / Utterance.rate x). intros q Hq. lra.
Qed.

Lemma roughDuration_nonneg (c : Render) :
  progress (state c) <= 100 -> 0 < rate (voiceSettings (props c)) -> 0 <= roughDuration c.
Proof.
  intros Hp Hr. unfold roughDuration. cbn zeta.
  assert (H : 0 <= length_of (text (state c)) / rate (voiceSettings (props c))).
  { apply Qle_shift_div_l; [exact Hr |]. rewrite Qmult_0_l. apply length_of_nonneg. }
  assert (H' : 0 <= (100 - progress (state c)) / 100).
  { apply Qle_shift_div_l; [reflexivity |]. lra. }
  apply Qmult_le_0_compat; [exact H' |].
  revert H. generalize (length_of (text (state c)) / rate (voiceSettings (props c))).
  intros q Hq. lra.
Qed.

Lemma cleared_lookup (w : World) (id : positive) (d : Q) :
  cleared w !! id = Some d -> intervals w !! id = Some d.
Proof.
  unfold cleared. destruct (progressIntervalRef w) as [r|]; [| auto].
  intros H. apply lookup_delete_Some in H as [_ H]. exact H.
Qed.

Lemma altered_rates (v : Q) (r : nat) (us : list Utterance.t) (u : nat) (x : Utterance.t) :
  alter (Utterance.set_volume v) r us !! u = Some x ->
  exists y, us !! u = Some y /\ Utterance.rate x = Utterance.rate y.
Proof.
  destruct (decide (r = u)) as [->|Hne].
  - rewrite list_lookup_alter_eq. destruct (us !! u) as [y|]; cbn; [| discriminate].
    intros [= <-]. exists y. split; reflexivity.
  - rewrite list_lookup_alter_ne by exact Hne. intros H. exists x. split; [exact H | reflexivity].
Qed.

Lemma bounded_frame (w w' : World) :
  progress (hooks w') = progress (hooks w) ->
  intervals w' = intervals w ->
  (forall u x, utterances w' !! u = Some x ->
     exists y, utterances w !! u = Some y /\ Utterance.rate x = Utterance.rate y) ->
  bounded w -> bounded w'.
Proof.
  intros Hp Hi Hu [B1 B2 B3]. split.
  - rewrite Hp. exact B1.
  - rewrite Hi. exact B2.
  - intros u x Hx. destruct (Hu u x Hx) as (y & Hy & ->). exact (B3 u y Hy).
Qed.

Lemma bounded_halted (w w' : World) :
  0 <= progress (hooks w') /\ progress (hooks w') <= 100 ->
  intervals w' = cleared w ->
  utterances w' = utterances w ->
  bounded w -> bounded w'.
Proof.
  intros Hp Hi Hu [B1 B2 B3]. split.
  - exact Hp.
  - rewrite Hi. intros id d H. exact (B2 id d (cleared_lookup w id d H)).
  - rewrite Hu. exact B3.
Qed.

Lemma bounded_started (w w' : World) (d : Q) :
  0 <= d ->
  0 <= progress (hooks w') /\ progress (hooks w') <= 100 ->
  intervals w' = <[nextTimer w := d]> (cleared w) ->
  utterances w' = utterances w ->
  bounded w -> bounded w'.
Proof.
  intros Hd Hp Hi Hu [B1 B2 B3]. split.
  - exact Hp.
  - rewrite Hi. intros id d' H.
    apply lookup_insert_Some in H as [[_ <-]|[_ H]]; [exact Hd |].
    exact (B2 id d' (cleared_lookup w id d' H)).
  - rewrite Hu. exact B3.
Qed.

Lemma advance_in_range (d prev : Q) :
  0 <= d -> 0 <= prev /\ prev <= 100 -> 0 <= advance d prev /\ advance d prev <= 100.
Proof.
  intros Hd [H0 H1]. unfold advance. destruct (Qeq_bool d 0) eqn:Hz; [lra |].
  apply Qeq_bool_neq in Hz.
  assert (Hpos : 0 < d) by (destruct (Qlt_le_dec 0 d) as [H|H]; [exact H | destruct Hz; lra]).
  assert (Hinc : 0 < 100 / d) by (apply Qlt_shift_div_l; lra).
  set (inc := 100 / d) in *. clearbody inc.
  destruct (Qlt_le_dec 100 (prev + inc)); lra.
Qed.

Lemma bounded_callback (cb : Callback) (w w1 : World) :
  bounded w -> run_callback cb w = Ok tt w1 -> bounded w1.
Proof.
  intros Hb H. destruct cb as [[|]|].
  - rewrite listenWindow_eq in H. injection H as <-.
    destruct (speechSynthesis w).
    + apply (bounded_halted w); [exact (progress_bounds w Hb) | reflexivity | reflexivity | exact Hb].
    + apply (bounded_frame w); [reflexivity | reflexivity | eauto | exact Hb].
  - rewrite listenWindow_stale_eq in H. injection H as <-.
    apply (bounded_frame w); [reflexivity | reflexivity | eauto | exact Hb].
  - rewrite followUp_eq in H. injection H as <-.
    apply (bounded_frame w); [reflexivity | reflexivity | eauto | exact Hb].
Qed.

Lemma bounded_handle (p : Props) (e : Event) (w w1 : World) :
  Store.in_range (voiceSettings p) ->
  bounded w ->
  handle (mkRender p (hooks w)) e w = Ok tt w1 ->
  bounded w1.
Proof.
  intros ((Hr0 & Hr1) & _ & _) Hb H.
  pose proof (progress_bounds w Hb) as Hp.
  destruct e; cbn [handle] in H.
  - destruct (speechSynthesis w) as [sy|] eqn:Hs.
    + rewrite (speak_present _ w sy Hs) in H. injection H as <-.
      destruct Hb as [B1 B2 B3]. split; cbn; [exact B1 | exact B2 |].
      intros u x Hx. apply lookup_app_Some in Hx as [Hx|[_ Hx]]; [exact (B3 u x Hx) |].
      apply list_lookup_singleton_Some in Hx as [_ <-]. cbn. lra.
    + rewrite (speak_absent _ w Hs) in H. injection H as <-. exact Hb.
  - rewrite pause_eq in H. injection H as <-.
    destruct (speechSynthesis w); [| exact Hb].
    apply (bounded_halted w); [exact Hp | reflexivity | reflexivity | exact Hb].
  - rewrite resume_eq in H. injection H as <-.
    destruct (speechSynthesis w); [| exact Hb].
    apply (bounded_started w _ (roughDuration (mkRender p (hooks w))));
      [| exact Hp | reflexivity | reflexivity | exact Hb].
    apply roughDuration_nonneg; cbn; [apply Hp | lra].
  - rewrite stop_eq in H. injection H as <-.
    destruct (speechSynthesis w); [| exact Hb].
    apply (bounded_halted w); [cbn; lra | reflexivity | reflexivity | exact Hb].
  - rewrite toggleMute_eq in H. injection H as <-.
    apply (bounded_frame w); [reflexivity | reflexivity | | exact Hb].
    cbn. intros u x Hx.
    destruct (speechSynthRef w), (speechSynthesis w); eauto using altered_rates.
  - rewrite toggleListening_eq in H. injection H as <-. cbn [state].
    apply (bounded_frame w); [| | | exact Hb];
      destruct (isListening (hooks w)), (isPlaying (hooks w)); cbn; eauto.
  - injection H as <-. apply (bounded_frame w); [reflexivity | reflexivity | eauto | exact Hb].
  - unfold mbind, M_bind, get in H.
    destruct (intervals w !! id) as [d|] eqn:Hd; [| injection H as <-; exact Hb].
    injection H as <-. destruct Hb as [B1 B2 B3]. split; cbn; [| exact B2 | exact B3].
    apply advance_in_range; [exact (B2 id d Hd) | exact B1].
  - unfold mbind, M_bind, get, modify in H.
    destruct (timeouts w !! id) as [tm|]; [| injection H as <-; exact Hb].
    apply (bounded_callback (callback tm) (with_timeouts (delete id) w)); [| exact H].
    apply (bounded_frame w); [reflexivity | reflexivity | eauto | exact Hb].
  - destruct (utterances w !! utterance) as [x|] eqn:Hx.
    + rewrite (onstart_eq _ x w Hx) in H. injection H as <-.
      apply (bounded_started w _ (duration x)); [| cbn; lra | reflexivity | reflexivity | exact Hb].
      apply duration_nonneg. exact (rates_positive w Hb _ x Hx).
    + exfalso. revert H. unfold onstart, setIsPlaying, setProgress, clearProgressInterval,
        clearInterval, read, modify, get, skip. unfold mbind, M_bind, mret, M_ret.
      destruct w as [h r pr sy us iv to nt]; cbn in Hx |- *.
      destruct pr; cbn; rewrite Hx; discriminate.
  - rewrite onend_eq in H. injection H as <-.
    apply (bounded_halted w); [cbn; lra | reflexivity | reflexivity | exact Hb].
  - rewrite onerror_eq in H. injection H as <-.
    apply (bounded_halted w); [exact Hp | reflexivity | reflexivity | exact Hb].
Qed.

Lemma bounded_commit (before after : Render) (w w' : World) :
  bounded w -> commit before after w = Ok tt w' -> bounded w'.
Proof.
  intros Hb H. unfold commit in H. destruct (deps_changed before after).
  - rewrite volumeEffect_eq in H. injection H as <-.
    apply (bounded_frame w); [reflexivity | reflexivity | | exact Hb].
    cbn. intros u x Hx. destruct (speechSynthRef w); eauto using altered_rates.
  - injection H as <-. exact Hb.
Qed.

Lemma bounded_step (p : Props) (e : Event) (w w' : World) :
  Store.in_range (voiceSettings p) ->
  bounded w -> step p e w = Ok tt w' -> bounded w'.
Proof.
  intros Hp Hb H. unfold step in H. unfold mbind, M_bind in H.
  destruct (handle (mkRender p (hooks w)) e w) as [[] w1|msg w1] eqn:Hh; [| discriminate].
  unfold get in H.
  exact (bounded_commit _ _ w1 w' (bounded_handle p e w w1 Hp Hb Hh) H).
Qed.

Lemma mounted_bounded (platform : option (list string)) : bounded (mounted platform).
Proof.
  destruct platform; split;
    first [ split; vm_compute; discriminate
          | intros id d H; vm_compute in H; discriminate H ].
Qed.

(** X16.  As long as the page keeps the voice settings within their
    ranges, the progress is a percentage in every world the player can be
    in: never below 0, never above 100. *)
Theorem progress_is_percentage (platform : option (list string)) (w : World) :
  reachable_in_range platform w ->
  0 <= progress (hooks w) /\ progress (hooks w) <= 100.
Proof.
  intros Hr. apply progress_bounds.
  induction Hr as [|w p e w' Hr IH Hp Hf Hs].
  - apply mounted_bounded.
  - exact (bounded_step p e w w' Hp IH Hs).
Qed.

(** ** Unmounting *)

Lemma cleanup_eq (w : World) :
  cleanup w =
  Ok tt (mkWorld (hooks w) (speechSynthRef w) (progressIntervalRef w)
                 (SpeechSynthesis.record SpeechSynthesis.cancel <$> speechSynthesis w)
                 (utterances w) (cleared w) (timeouts w) (nextTimer w)).
Proof. destruct w as [h r [id|] [sy|] us iv to nt]; reflexivity. Qed.

(** X17.  The clean-up run on unmount, in any world the player can be in:
    it does not throw, leaves no interval running and, when there is a speech
    service, asks it to cancel.  It clears no timeout: a listen window or
    follow-up that is pending stays pending. *)
Theorem cleanup_on_unmount (platform : option (list string)) (w : World) :
  reachable platform w ->
  exists w',
    cleanup w = Ok tt w' /\
    intervals w' = ∅ /\
    speechSynthesis w' = (SpeechSynthesis.record SpeechSynthesis.cancel <$> speechSynthesis w) /\
    timeouts w' = timeouts w /\
    hooks w' = hooks w /\ utterances w' = utterances w.
Proof.
  intros Hr. pose proof (reachable_consistent platform w Hr) as [I1 _ _ _].
  eexists. split; [apply cleanup_eq |]. cbn.
  split; [apply cleared_empty, I1 |]. repeat split; reflexivity.
Qed.

Lemma cleanup_on_unmount_witness :
  exists w', cleanup Session.listening = Ok tt w' /\ intervals w' = ∅ /\
             timeouts w' !! 2%positive = Some (mkTimer (ListenWindow true) 2000).
Proof.
  destruct (cleanup_on_unmount Session.browser Session.listening listening_reachable)
    as (w' & H1 & H2 & _ & H4 & _).
  exists w'. split; [exact H1 |]. split; [exact H2 |]. rewrite H4.
  vm_compute. reflexivity.
Defined.

(** ** The microphone button *)

(** X18.  Switching listening off by hand cancels nothing: the click only
    clears [isListening]; a listen window scheduled earlier stays pending,
    and when it elapses playback is paused and the interruption is flagged
    all the same. *)
Theorem listening_off_keeps_timer (p p' : Props) (w : World) (id : positive)
        (sy : SpeechSynthesis.t) :
  isListening (hooks w) = true ->
  timeouts w !! id = Some (mkTimer (ListenWindow true) 2000) ->
  speechSynthesis w = Some sy ->
  exists w1 w2,
    step p ClickMic w = Ok tt w1 /\
    w1 = with_hooks (set_isListening false) w /\
    step p' (Elapsed id) w1 = Ok tt w2 /\
    isPlaying (hooks w2) = false /\
    interruptionDetected (hooks w2) = true /\
    speechSynthesis w2 = Some (SpeechSynthesis.record SpeechSynthesis.pause sy).
Proof.
  intros Hl Ht Hs.
  assert (H1 : step p ClickMic w = Ok tt (with_hooks (set_isListening false) w)).
  { apply step_plain; [| reflexivity]. cbn [handle]. rewrite toggleListening_eq.
    cbn [state]. rewrite Hl. reflexivity. }
  eexists _, _. split; [exact H1 |]. split; [reflexivity |].
  split.
  - rewrite (step_elapsed _ id (mkTimer (ListenWindow true) 2000)); [| exact Ht].
    apply listenWindow_eq.
  - cbn. rewrite Hs. cbn. repeat split; reflexivity.
Qed.

Lemma listening_off_keeps_timer_witness :
  exists w1 w2,
    step Session.firstProps ClickMic Session.listening = Ok tt w1 /\
    isListening (hooks w1) = false /\
    step Session.firstProps (Elapsed 2) w1 = Ok tt w2 /\
    isPlaying (hooks w2) = false /\ interruptionDetected (hooks w2) = true.
Proof.
  assert (Hsy : exists sy, speechSynthesis Session.listening = Some sy)
    by (eexists; vm_compute; reflexivity).
  destruct Hsy as [sy Hsy].
  destruct (listening_off_keeps_timer Session.firstProps Session.firstProps Session.listening
              2%positive sy eq_refl eq_refl Hsy)
    as (w1 & w2 & H1 & H2 & H3 & H4 & H5 & _).
  exists w1, w2. split; [exact H1 |]. split; [rewrite H2; reflexivity |]. auto.
Defined.

(** X19.  While nothing is playing, the microphone button is a plain
    toggle: a click negates [isListening], schedules no timeout and touches
    nothing else, and a second click gives back the very same world. *)
Theorem mic_toggle_round_trip (p p' : Props) (w : World) :
  isPlaying (hooks w) = false ->
  exists w1,
    step p ClickMic w = Ok tt w1 /\
    isListening (hooks w1) = negb (isListening (hooks w)) /\
    timeouts w1 = timeouts w /\
    step p' ClickMic w1 = Ok tt w.
Proof.
  intros Hp.
  assert (H1 : step p ClickMic w =
               Ok tt (with_hooks (set_isListening (negb (isListening (hooks w)))) w)).
  { apply step_plain; [| reflexivity]. cbn [handle]. rewrite toggleListening_eq.
    cbn [state]. rewrite Hp. destruct (isListening (hooks w)); reflexivity. }
  eexists. split; [exact H1 |]. split; [reflexivity |]. split; [reflexivity |].
  apply step_plain.
  - cbn [handle]. rewrite toggleListening_eq. cbn [state hooks with_hooks].
    destruct w as [[t pl g m l i] r pr sy us iv to nt]; cbn in Hp |- *; subst pl.
    destruct l; reflexivity.
  - reflexivity.
Qed.

Lemma mic_toggle_round_trip_witness :
  exists w1, step Session.firstProps ClickMic (mounted Session.browser) = Ok tt w1 /\
             isListening (hooks w1) = true /\
             step Session.firstProps ClickMic w1 = Ok tt (mounted Session.browser).
Proof.
  destruct (mic_toggle_round_trip Session.firstProps Session.firstProps
              (mounted Session.browser) eq_refl) as (w1 & H1 & H2 & _ & H4).
  exists w1. split; [exact H1 |]. split; [exact H2 | exact H4].
Defined.

(** ** Pause, then resume *)

(** X20.  From a world in which speech is playing: Pause forwards [pause]
    to the service, stops playback and leaves no interval running, with the
    progress where it was; Resume then forwards [resume], plays again at the
    same progress, and exactly one interval runs, the new one, whose duration
    is computed from the progress that is left. *)
Theorem pause_then_resume (platform : option (list string)) (p p' : Props) (w : World) :
  reachable platform w ->
  isPlaying (hooks w) = true ->
  exists sy w1 w2,
    speechSynthesis w = Some sy /\
    step p ClickPause w = Ok tt w1 /\
    isPlaying (hooks w1) = false /\
    progress (hooks w1) = progress (hooks w) /\
    intervals w1 = ∅ /\
    step p' ClickResume w1 = Ok tt w2 /\
    isPlaying (hooks w2) = true /\
    progress (hooks w2) = progress (hooks w) /\
    intervals w2 = {[ nextTimer w := roughDuration (mkRender p' (hooks w1)) ]} /\
    progressIntervalRef w2 = Some (nextTimer w) /\
    SpeechSynthesis.calls <$> speechSynthesis w2 =
      Some (SpeechSynthesis.calls sy ++ [SpeechSynthesis.pause; SpeechSynthesis.resume]).
Proof.
  intros Hr Hp.
  pose proof (reachable_consistent platform w Hr) as [I1 _ I3 _].
  destruct (speechSynthesis w) as [sy|] eqn:Hs;
    [| destruct (I3 eq_refl) as (_ & H & _); congruence].
  pose proof (cleared_empty w I1) as Hc.
  set (w1 := mkWorld (set_isPlaying false (hooks w)) (speechSynthRef w) (progressIntervalRef w)
                     (Some (SpeechSynthesis.record SpeechSynthesis.pause sy))
                     (utterances w) (cleared w) (timeouts w) (nextTimer w)).
  assert (H1 : step p ClickPause w = Ok tt w1).
  { apply step_plain; [| reflexivity]. cbn [handle]. rewrite pause_eq, Hs. reflexivity. }
  assert (Hc1 : cleared w1 = ∅).
  { apply map_eq. intros i. rewrite lookup_empty. unfold cleared, w1; cbn.
    rewrite Hc. destruct (progressIntervalRef w); [rewrite lookup_delete_None |];
      rewrite ?lookup_empty; auto. }
  eexists sy, w1, _. split; [reflexivity |]. split; [exact H1 |].
  split; [reflexivity |]. split; [reflexivity |]. split; [exact Hc |].
  split; [apply step_plain; [cbn [handle]; apply resume_eq | reflexivity] |].
  cbn [speechSynthesis w1]. cbn.
  split; [reflexivity |]. split; [reflexivity |].
  split; [fold w1; rewrite Hc1; reflexivity |].
  split; [reflexivity |]. rewrite <- app_assoc. reflexivity.
Qed.

Lemma pause_then_resume_witness :
  exists w1 w2,
    step Session.firstProps ClickPause Session.speaking = Ok tt w1 /\
    intervals w1 = ∅ /\
    step Session.firstProps ClickResume w1 = Ok tt w2 /\
    isPlaying (hooks w2) = true /\
    progress (hooks w2) = progress (hooks Session.speaking).
Proof.
  destruct (pause_then_resume Session.browser Session.firstProps Session.firstProps
              Session.speaking speaking_reachable eq_refl)
    as (sy & w1 & w2 & _ & H1 & _ & _ & H2 & H3 & H4 & H5 & _).
  exists w1, w2. auto.
Defined.

Lemma speaking_in_range : reachable_in_range Session.browser Session.speaking.
Proof.
  assert (H0 : Store.in_range (voiceSettings Session.firstProps))
    by (unfold Store.in_range; cbn; lra).
  apply (reach_in_range_step _ (Session.after Session.firstProps [ClickSpeak]
                                   (mounted Session.browser))
                             Session.firstProps (OnStart 0%nat));
    [| exact H0 | vm_compute; reflexivity | vm_compute; reflexivity].
  apply (reach_in_range_step _ (mounted Session.browser) Session.firstProps ClickSpeak);
    [| exact H0 | vm_compute; reflexivity | vm_compute; reflexivity].
  apply reach_in_range_mount.
Defined.

Lemma progress_is_percentage_witness :
  0 <= progress (hooks Session.speaking) /\ progress (hooks Session.speaking) <= 100.
Proof. exact (progress_is_percentage Session.browser Session.speaking speaking_in_range). Defined.

End PlayerMoreFacts.

(* ================================================================== *)
(** * More facts: the voice picker                                     *)
(* ================================================================== *)

Section PickerFacts.
Import Home VoiceCustomizer.

(** X21.  The voice list of the customizer is only ever replaced by a
    non-empty catalogue; the picker always offers at least one item; and
    once a non-empty catalogue is loaded, whichever item is picked is exactly
    the voice [speak] passes to the service for that catalogue. *)
Theorem picked_voice_is_spoken (voices availableVoices : list string) (value : string) :
  (voices <> [] -> loadVoices voices availableVoices = voices) /\
  loadVoices [] availableVoices = availableVoices /\
  selectItems availableVoices <> [] /\
  (voices <> [] ->
   value ∈ selectItems (loadVoices voices availableVoices) ->
   TTSPlayer.selectVoice voices
     (voice (handleVoiceSettingsChange (onChange_arg (VoiceSelect value)) initialVoiceSettings))
   = Some value).
Proof.
  assert (Hload : voices <> [] -> loadVoices voices availableVoices = voices).
  { intros H. unfold loadVoices. destruct voices; [congruence | reflexivity]. }
  split; [exact Hload |]. split; [reflexivity |]. split.
  - unfold selectItems. destruct availableVoices; cbn; discriminate.
  - intros Hne Hin. rewrite (Hload Hne) in Hin. cbn.
    unfold selectItems in Hin. destruct voices as [|v vs]; [congruence |]. cbn in Hin.
    apply selectVoice_member. exact Hin.
Qed.

Lemma picked_voice_is_spoken_witness :
  TTSPlayer.selectVoice ["Alice"; "Bob"]
    (voice (handleVoiceSettingsChange (onChange_arg (VoiceSelect "Bob")) initialVoiceSettings))
  = Some "Bob".
Proof.
  apply (proj2 (proj2 (proj2 (picked_voice_is_spoken ["Alice"; "Bob"] [] "Bob")))).
  - discriminate.
  - cbn. repeat constructor.
Defined.

End PickerFacts.

(* ================================================================== *)
(** * More facts: the camera monitors                                  *)
(* ================================================================== *)

Section CameraFacts.

Lemma floor_index (r : Q) (n : nat) :
  0 <= r -> r < 1 -> (0 < n)%nat ->
  (Z.to_nat (Qfloor (r * inject_Z (Z.of_nat n))) < n)%nat.
Proof.
  intros H0 H1 Hn.
  assert (HN : 0 < inject_Z (Z.of_nat n))
    by (change 0 with (inject_Z 0); rewrite <- Zlt_Qlt; lia).
  set (x := r * inject_Z (Z.of_nat n)).
  assert (Hx0 : 0 <= x) by (apply Qmult_le_0_compat; [exact H0 | apply Qlt_le_weak, HN]).
  assert (Hx1 : x < inject_Z (Z.of_nat n)).
  { unfold x. rewrite <- (Qmult_1_l (inject_Z (Z.of_nat n))) at 2.
    apply Qmult_lt_compat_r; assumption. }
  assert (Hf0 : (0 <= Qfloor x)%Z).
  { change 0%Z with (Qfloor 0). apply Qfloor_resp_le. exact Hx0. }
  assert (Hf1 : (Qfloor x < Z.of_nat n)%Z).
  { rewrite Zlt_Qlt. apply Qle_lt_trans with x; [apply Qfloor_le | exact Hx1]. }
  lia.
Qed.

Lemma round_bounds (x : Q) (a b : Z) :
  inject_Z a <= x -> x < inject_Z b ->
  (a <= GestureController.round x <= b)%Z.
Proof.
  intros Ha Hb. unfold GestureController.round. split.
  - rewrite <- (Qfloor_Z a). apply Qfloor_resp_le.
    revert Ha. generalize (inject_Z a). intros q Hq. lra.
  - apply Z.le_ngt. intros Hc.
    assert (H1 : (b + 1 <= Qfloor (x + 0.5))%Z) by lia.
    rewrite Zle_Qle, inject_Z_plus in H1. change (inject_Z 1) with 1 in H1.
    pose proof (Qfloor_le (x + 0.5)) as H2.
    revert Hb H1 H2. generalize (inject_Z b) (inject_Z (Qfloor (x + 0.5))).
    intros q r Hb H1 H2. lra.
Qed.

(** ** The gesture monitor *)

(** X22.  One simulated gesture detection, with its random draws in
    [0, 1): nothing happens when the first draw is above 0.05; otherwise the
    gesture shown and reported to the page is one of the four known gestures,
    the confidence shown is between 70 and 100, one display reset is
    scheduled, and neither the frames nor the streams change. *)
Theorem simulateGestureDetection_reports (s : GestureController.Sample)
        (w : GestureController.World) :
  0 <= GestureController.draw_index s -> GestureController.draw_index s < 1 ->
  0 <= GestureController.draw_conf s -> GestureController.draw_conf s < 1 ->
  let w' := GestureController.simulateGestureDetection s w in
  (0.05 < GestureController.draw_gate s -> w' = w) /\
  (GestureController.draw_gate s <= 0.05 ->
   exists g,
     g ∈ GestureController.gestures /\
     GestureController.detectedGesture (GestureController.hooks w') = Some g /\
     GestureController.reported w' = GestureController.reported w ++ [g] /\
     (70 <= GestureController.gestureConfidence (GestureController.hooks w') <= 100)%Z /\
     GestureController.clearTimers w' = S (GestureController.clearTimers w) /\
     GestureController.frames w' = GestureController.frames w /\
     GestureController.streams w' = GestureController.streams w).
Proof.
  intros Hi0 Hi1 Hc0 Hc1. cbn zeta. unfold GestureController.simulateGestureDetection.
  destruct (Qlt_le_dec 0.05 (GestureController.draw_gate s)) as [Hg|Hg].
  - split; [reflexivity | intros H; lra].
  - split; [intros H; lra |]. intros _.
    pose proof (floor_index (GestureController.draw_index s)
                  (length GestureController.gestures) Hi0 Hi1 ltac:(cbn; lia)) as Hlt.
    destruct (lookup_lt_is_Some_2 _ _ Hlt) as [g Hgl]. rewrite Hgl.
    exists g. split; [apply list_elem_of_lookup; eauto |].
    cbn -[GestureController.round Qmult Qplus].
    split; [reflexivity |]. split; [reflexivity |].
    split; [| repeat split; reflexivity].
    apply round_bounds.
    + change (inject_Z 70) with 70. lra.
    + change (inject_Z 100) with 100. lra.
Qed.

Lemma simulateGestureDetection_reports_witness :
  GestureController.reported
    (GestureController.simulateGestureDetection
       (GestureController.mkSample 4 0.01 0.6 0.5)
       (GestureController.mounted (GestureController.mkSample 4 0.01 0.6 0.5)))
  <> [].
Proof.
  destruct (simulateGestureDetection_reports
              (GestureController.mkSample 4 0.01 0.6 0.5)
              (GestureController.mounted (GestureController.mkSample 4 0.01 0.6 0.5)))
    as [_ H]; try (cbn; lra).
  destruct H as (g & _ & _ & Hr & _); [cbn; lra |].
  rewrite Hr. destruct (GestureController.reported _); discriminate.
Defined.

Lemma gesture_simulate_streams (s : GestureController.Sample) (w : GestureController.World) :
  GestureController.streams (GestureController.simulateGestureDetection s w)
  = GestureController.streams w.
Proof.
  unfold GestureController.simulateGestureDetection.
  destruct (Qlt_le_dec _ _); [reflexivity |]. destruct (_ !! _); reflexivity.
Qed.

Lemma gesture_detect_streams (s : GestureController.Sample) (w : GestureController.World) :
  GestureController.streams (GestureController.detectGestures s w)
  = GestureController.streams w.
Proof.
  unfold GestureController.detectGestures. cbn.
  destruct (_ && _); [apply gesture_simulate_streams | reflexivity].
Qed.

Lemma gesture_start_streams (b : bool) (s : GestureController.Sample)
      (w : GestureController.World) :
  GestureController.streams (GestureController.startGestureDetection b s w)
  = GestureController.streams w.
Proof.
  unfold GestureController.startGestureDetection.
  destruct (_ || _); [reflexivity | apply gesture_detect_streams].
Qed.

Lemma gesture_effect_streams (s : GestureController.Sample) (w : GestureController.World) :
  GestureController.streams (GestureController.toggleEffect s w)
  = GestureController.streams w.
Proof.
  unfold GestureController.toggleEffect.
  destruct (GestureController.enabled w).
  - destruct (GestureController.cameraPermission _);
      [apply gesture_start_streams | reflexivity | reflexivity].
  - unfold GestureController.stopGestureDetection.
    destruct (GestureController.animationFrameRef w); reflexivity.
Qed.

Lemma gesture_commit_streams (s : GestureController.Sample)
      (before w : GestureController.World) :
  GestureController.streams (GestureController.commit s before w)
  = GestureController.streams w.
Proof.
  unfold GestureController.commit. cbn zeta.
  destruct (_ && _); [reflexivity |]. rewrite gesture_effect_streams. reflexivity.
Qed.

(** X23.  No event releases the camera: whatever happens to a mounted
    gesture controller (the switch, the set-up button, a camera answer, a
    frame, a display reset), every stream that was running is still running
    afterwards; in particular switching gesture control off leaves the set of
    running streams as it was. *)
Theorem camera_never_released (s : GestureController.Sample) (e : GestureController.Event)
        (w : GestureController.World) :
  GestureController.streams w ⊆ GestureController.streams (GestureController.step s e w) /\
  GestureController.streams (GestureController.step s GestureController.Toggle w)
  = GestureController.streams w.
Proof.
  unfold GestureController.step. rewrite !gesture_commit_streams. split; [| reflexivity].
  destruct e as [| |k ok|id|]; cbn [GestureController.handle].
  - reflexivity.
  - reflexivity.
  - destruct (GestureController.requests w !! k) as [b|]; [| reflexivity].
    destruct ok; [| reflexivity].
    unfold GestureController.startCamera_resolved. cbn.
    destruct (GestureController.videoRef w); [| cbn; apply union_subseteq_r].
    destruct b; [rewrite gesture_start_streams |]; cbn; apply union_subseteq_r.
  - rewrite gesture_detect_streams. reflexivity.
  - reflexivity.
Qed.

(** X24.  The clean-up on unmount stops the tracks of one stream only,
    the one in [streamRef]: whenever two or more streams are running, as
    happens once the camera was granted twice, some stream is still running
    after it. *)
Theorem stopCamera_leaves_streams (w : GestureController.World) :
  (2 <= size (GestureController.streams w))%nat ->
  GestureController.streams (GestureController.stopCamera w) <> ∅.
Proof.
  intros Hsz Hempty.
  assert (Hsub : exists k, GestureController.streams w ⊆ {[ k ]}).
  { unfold GestureController.stopCamera in Hempty.
    destruct (GestureController.streamRef w) as [k|] eqn:Hk; cbn in Hempty.
    - exists k.
      assert (He : GestureController.streams w ∖ {[ k ]} = ∅)
        by (destruct (GestureController.animationFrameRef w); exact Hempty).
      clear -He. intros x Hx. destruct (decide (x = k)) as [->|Hne].
      + apply elem_of_singleton. reflexivity.
      + assert (Hin : x ∈ GestureController.streams w ∖ {[ k ]})
          by (apply elem_of_difference; split;
              [exact Hx | rewrite elem_of_singleton; exact Hne]).
        rewrite He in Hin. apply elem_of_empty in Hin. destruct Hin.
    - exists 0%nat.
      assert (He : GestureController.streams w = ∅)
        by (destruct (GestureController.animationFrameRef w); exact Hempty).
      rewrite He. intros x Hx. apply elem_of_empty in Hx. destruct Hx. }
  destruct Hsub as [k Hsub]. apply subseteq_size in Hsub.
  rewrite size_singleton in Hsub. lia.
Qed.

Lemma stopCamera_leaves_streams_witness :
  GestureController.streams
    (GestureController.stopCamera
       (GestureController.run (GestureController.mkSample 4 0.01 0.6 0.5)
          [GestureController.Toggle; GestureController.Answer 0 true;
           GestureController.ClickSetup; GestureController.Answer 0 true]
          (GestureController.mounted (GestureController.mkSample 4 0.01 0.6 0.5))))
  <> ∅.
Proof.
  apply stopCamera_leaves_streams. vm_compute. lia.
Defined.

(** X25.  A single sampling loop behaves as intended: while exactly one
    frame is requested and [animationFrameRef] holds it, running that frame
    requests exactly one new frame and stores it in the ref, and
    [stopGestureDetection] leaves no frame requested and clears the gesture
    on display. *)
Theorem single_loop_runs_and_stops (s : GestureController.Sample) (id : positive)
        (w : GestureController.World) :
  GestureController.frames w = {[ id ]} ->
  GestureController.animationFrameRef w = Some id ->
  (GestureController.frames
     (GestureController.handle s (GestureController.Frame id) w)
   = {[ GestureController.nextFrame w ]} /\
   GestureController.animationFrameRef
     (GestureController.handle s (GestureController.Frame id) w)
   = Some (GestureController.nextFrame w)) /\
  (GestureController.frames (GestureController.stopGestureDetection w) = ∅ /\
   GestureController.animationFrameRef (GestureController.stopGestureDetection w) = None /\
   GestureController.detectedGesture
     (GestureController.hooks (GestureController.stopGestureDetection w)) = None /\
   GestureController.gestureConfidence
     (GestureController.hooks (GestureController.stopGestureDetection w)) = 0%Z).
Proof.
  intros Hf Ha. split.
  - cbn [GestureController.handle]. unfold GestureController.detectGestures. cbn.
    assert (Hsim : forall w0,
               GestureController.frames (GestureController.simulateGestureDetection s w0)
               = GestureController.frames w0 /\
               GestureController.nextFrame (GestureController.simulateGestureDetection s w0)
               = GestureController.nextFrame w0) by (intros w0; apply simulate_keeps_frames).
    destruct (_ && _).
    + destruct (Hsim (GestureController.cancelAnimationFrame id w)) as [-> ->]. cbn.
      rewrite Hf, difference_diag_L, union_empty_r_L. split; reflexivity.
    + cbn. rewrite Hf, difference_diag_L, union_empty_r_L. split; reflexivity.
  - unfold GestureController.stopGestureDetection. rewrite Ha. cbn.
    rewrite Hf, difference_diag_L. repeat split; reflexivity.
Qed.

Lemma single_loop_runs_and_stops_witness :
  GestureController.frames
    (GestureController.stopGestureDetection
       (GestureController.mkWorld (GestureController.mkHooks GestureController.granted None 0)
          true true true (Some 0%nat) (Some 1%positive) {[ 1%positive ]} 2%positive
          [] {[ 0%nat ]} 1%nat 0%nat [])) = ∅.
Proof.
  apply (single_loop_runs_and_stops (GestureController.mkSample 4 0.01 0.6 0.5) 1%positive
           (GestureController.mkWorld (GestureController.mkHooks GestureController.granted None 0)
              true true true (Some 0%nat) (Some 1%positive) {[ 1%positive ]} 2%positive
              [] {[ 0%nat ]} 1%nat 0%nat [])); reflexivity.
Defined.

(** ** The emotion monitor *)



(** X27.  The emotion monitor never detects anything: in every state it
    can be in, the camera permission is not "granted" (it is set only when
    the [<video>] element exists, and that element is rendered only once the
    permission is "granted"), detection is off, no frame is requested, the
    emotion on display is the initial "neutral", and [onEmotionDetected] has
    never been called. *)
Theorem emotion_never_reported (w : EmotionDetector.World) :
  EmotionDetector.reachable w ->
  EmotionDetector.cameraPermission (EmotionDetector.hooks w) <> EmotionDetector.granted /\
  EmotionDetector.isDetecting (EmotionDetector.hooks w) = false /\
  EmotionDetector.frames w = [] /\
  EmotionDetector.currentEmotion (EmotionDetector.hooks w) = "neutral" /\
  EmotionDetector.reported w = [] /\
  EmotionDetector.videoRef w = false /\ EmotionDetector.canvasRef w = false.
Proof.
  induction 1 as [|w s e Hr IH Hf].
  - cbn. repeat split; discriminate.
  - destruct IH as (Hp & Hd & Hfr & Hc & Hrep & Hv & Hcv).
    destruct w as [[det cur conf perm] vr cr sr st ns rq fr rp];
      cbn in Hp, Hd, Hfr, Hc, Hrep, Hv, Hcv; subst det fr cur rp vr cr.
    destruct e as [| |k ok|k]; cbn in Hf.
    + destruct perm; try congruence; vm_compute; repeat split; congruence.
    + destruct perm, sr; try congruence; vm_compute; repeat split; congruence.
    + unfold EmotionDetector.step, EmotionDetector.handle; cbn [EmotionDetector.requests].
      destruct (rq !! k) as [closed|] eqn:Hk; [| discriminate].
      destruct ok, closed, perm; try congruence; vm_compute; repeat split; congruence.
    + apply bool_decide_eq_true in Hf. destruct Hf as [x Hx]. discriminate Hx.
Qed.

Lemma emotion_never_reported_witness :
  EmotionDetector.reported
    (EmotionDetector.step (EmotionDetector.mkSample 4 0.5 0.2 (fun _ => 0.3))
       (EmotionDetector.Answer 0 true)
       (EmotionDetector.step (EmotionDetector.mkSample 4 0.5 0.2 (fun _ => 0.3))
          EmotionDetector.ClickEnable EmotionDetector.mounted)) = [].
Proof.
  apply emotion_never_reported.
  apply EmotionDetector.reach_step; [| reflexivity].
  apply EmotionDetector.reach_step; [| reflexivity].
  apply EmotionDetector.reach_mount.
Defined.

End CameraFacts.
